(** * CircularBuffer: a shallow embedding of src/CircularBuffer.c

    The ring of [CircularBuffer.c] is modelled field by field.  [size_t]
    values are [Z] with their 64-bit wrap-around written out ([wrap]); the C
    operator [%] on [size_t] is [umod], which is undefined (here [None]) for
    a zero divisor.  The doubly mapped window [buffer .. buffer + 2*size) is
    modelled by the bytes of the backing store ([backing]): virtual offset
    [i] of the window shows [backing[i mod size]], and a copy that leaves
    the window is undefined behaviour.  The host's system calls are inputs
    ([env]) and the process's resources (open descriptors and mappings)
    are an explicit list threaded through [init] and [free].

    The model follows a release build ([NDEBUG] defined): the debug
    [printf] calls of [writeChunk] and [readChunk] are left out.  The gate
    (mutex and condition variable) is modelled by treating each call as one
    atomic step; [readChunk] on an empty ring is a step that waits
    ([ReadBlocks]). *)

From Stdlib Require Import ZArith List Bool Lia.
From Stdlib Require Import Init.Byte.
From Stdlib Require Strings.Byte.
Import ListNotations.
Open Scope Z_scope.

Module CircularBuffer.

(** ** Machine integers *)

Definition SIZE_T_MOD : Z := 2 ^ 64.
Definition wrap (x : Z) : Z := x mod SIZE_T_MOD.
Definition LONG_MAX : Z := 2 ^ 63 - 1.
Definition INT_MAX : Z := 2 ^ 31 - 1.
Definition NULL : Z := 0.
Definition MAP_FAILED : Z := wrap (-1).

(** [a % b] on [size_t]: undefined when [b = 0]. *)
Definition umod (a b : Z) : option Z :=
  if b =? 0 then None else Some (a mod b).

(** ** The ring object ([CircularBuffer_t]) *)

Record CircularBuffer_t := mkCB {
  empty   : bool;
  read    : Z;          (** [position.read] *)
  write   : Z;          (** [position.write] *)
  fd      : Z;
  buffer  : Z;          (** base address of the virtual window, [NULL] = 0 *)
  size    : Z;
  backing : list byte   (** bytes of the memory object seen through [buffer] *)
}.

Definition set_empty (cb : CircularBuffer_t) (e : bool) : CircularBuffer_t :=
  mkCB e (read cb) (write cb) (fd cb) (buffer cb) (size cb) (backing cb).
Definition set_read (cb : CircularBuffer_t) (r : Z) : CircularBuffer_t :=
  mkCB (empty cb) r (write cb) (fd cb) (buffer cb) (size cb) (backing cb).
Definition set_write (cb : CircularBuffer_t) (w : Z) : CircularBuffer_t :=
  mkCB (empty cb) (read cb) w (fd cb) (buffer cb) (size cb) (backing cb).
Definition set_fd (cb : CircularBuffer_t) (f : Z) : CircularBuffer_t :=
  mkCB (empty cb) (read cb) (write cb) f (buffer cb) (size cb) (backing cb).
Definition set_buffer (cb : CircularBuffer_t) (b : Z) : CircularBuffer_t :=
  mkCB (empty cb) (read cb) (write cb) (fd cb) b (size cb) (backing cb).
Definition set_backing (cb : CircularBuffer_t) (m : list byte) : CircularBuffer_t :=
  mkCB (empty cb) (read cb) (write cb) (fd cb) (buffer cb) (size cb) m.

(** [CircularBuffer_create] *)
Definition CircularBuffer_create : CircularBuffer_t :=
  mkCB true 0 0 0 NULL 0 [].

(** ** The doubly mapped window *)

Fixpoint list_set (l : list byte) (i : nat) (x : byte) : list byte :=
  match l, i with
  | [], _ => []
  | _ :: t, O => x :: t
  | h :: t, S k => h :: list_set t k x
  end.

(** The byte shown at virtual offset [off] of the window. *)
Definition virtual_byte (mem : list byte) (off : Z) : byte :=
  nth (Z.to_nat (off mod Z.of_nat (length mem))) mem x00.

(** [off .. off + n) lies inside the [2 * capacity] window. *)
Definition in_window (mem : list byte) (off n : Z) : bool :=
  (0 <=? off) && (0 <=? n) && (off + n <=? 2 * Z.of_nat (length mem)).

(** Byte-by-byte store through the window: offset [off] lands on
    [backing[off mod capacity]].  For a copy of at most the capacity every
    slot is written at most once and the order of the stores does not
    matter.  A longer copy writes some slots twice, through both views of
    the double mapping: its result then depends on the order in which
    [memcpy] stores, which C leaves open.  The ascending order below is the
    model's choice; no stated property depends on the contents in that
    case. *)
Fixpoint store_bytes (mem : list byte) (off : Z) (src : list byte) : list byte :=
  match src with
  | [] => mem
  | b :: rest =>
      store_bytes (list_set mem (Z.to_nat (off mod Z.of_nat (length mem))) b)
                  (off + 1) rest
  end.

(** [memcpy( &buffer[off], src, length(src) )] *)
Definition memcpy_to_window (mem : list byte) (off : Z) (src : list byte)
  : option (list byte) :=
  if in_window mem off (Z.of_nat (length src))
  then Some (store_bytes mem off src) else None.

(** [memcpy( target, &buffer[off], n )]: the bytes copied out. *)
Definition memcpy_from_window (mem : list byte) (off n : Z) : option (list byte) :=
  if in_window mem off n
  then Some (map (fun i => virtual_byte mem (off + Z.of_nat i)) (seq 0 (Z.to_nat n)))
  else None.

(** ** Cursor algebra *)

(** [CircularBuffer_advanceReadPos] *)
Definition CircularBuffer_advanceReadPos (cb : CircularBuffer_t) (n : Z)
  : option CircularBuffer_t :=
  match umod (wrap (read cb + n)) (size cb) with
  | None => None
  | Some r =>
      let cb' := set_read cb r in
      Some (if r =? write cb' then set_empty cb' true else cb')
  end.

(** [CircularBuffer_advanceWritePos] *)
Definition CircularBuffer_advanceWritePos (cb : CircularBuffer_t) (n : Z)
  : option CircularBuffer_t :=
  match umod (wrap (write cb + n)) (size cb) with
  | None => None
  | Some w =>
      let cb' := set_write cb w in
      Some (if negb (n =? 0) then set_empty cb' false else cb')
  end.

(** [free_bytes] as computed in [writeChunk] (line 225). *)
Definition free_bytes (cb : CircularBuffer_t) : option Z :=
  umod (wrap (wrap (read cb + size cb) - write cb)) (size cb).

(** [bytes_available] as computed in [readChunk] (line 285). *)
Definition bytes_available (cb : CircularBuffer_t) : option Z :=
  umod (wrap (wrap (write cb + size cb) - read cb)) (size cb).

(** ** [CircularBuffer_writeChunk] *)

Inductive write_result :=
| WriteUB                                        (** undefined behaviour *)
| WriteReturns (cb : CircularBuffer_t) (n : Z).  (** new ring, bytes written *)

Definition CircularBuffer_writeChunk (cb : CircularBuffer_t) (src : list byte)
  : write_result :=
  let length := Z.of_nat (List.length src) in
  match free_bytes cb with
  | None => WriteUB
  | Some free =>
      if empty cb || (length <=? free) then
        match memcpy_to_window (backing cb) (write cb) src with
        | None => WriteUB
        | Some mem =>
            match CircularBuffer_advanceWritePos (set_backing cb mem) length with
            | None => WriteUB
            | Some cb' => WriteReturns cb' length
            end
        end
      else WriteReturns cb 0
  end.

(** ** [CircularBuffer_readChunk] *)

Inductive read_result :=
| ReadBlocks                  (** waits on [ready] while [empty] *)
| ReadUB                      (** undefined behaviour *)
| ReadReturns (cb : CircularBuffer_t) (out : list byte) (n : Z).

(** [cbuff_null] and [target_null] say whether the pointer arguments are
    [NULL]; [length] is the requested count. *)
Definition CircularBuffer_readChunk (cbuff_null target_null : bool)
    (cb : CircularBuffer_t) (length : Z) : read_result :=
  if cbuff_null || target_null then ReadReturns cb [] 0 else
  if empty cb then ReadBlocks else
  match bytes_available cb with
  | None => ReadUB
  | Some avail =>
      let bytes_read := if avail <? length then avail else length in
      match memcpy_from_window (backing cb) (read cb) bytes_read with
      | None => ReadUB
      | Some out =>
          match CircularBuffer_advanceReadPos cb bytes_read with
          | None => ReadUB
          | Some cb' => ReadReturns cb' out bytes_read
          end
      end
  end.

(** ** [CircularBuffer_empty] and [CircularBuffer_size]; [None] is a [NULL]
    ring pointer. *)

Definition CircularBuffer_empty (cbuff : option CircularBuffer_t) : bool :=
  match cbuff with None => true | Some cb => empty cb end.

Definition CircularBuffer_size (cbuff : option CircularBuffer_t) : Z :=
  match cbuff with None => 0 | Some cb => size cb end.

(** ** Process resources and host system calls *)

Inductive map_kind := Reserved | Backed (f : Z).

Inductive resource :=
| OpenFd (f : Z)                            (** an open descriptor *)
| Mapping (addr len : Z) (k : map_kind).    (** a mapped range *)

(** The results the host gives to the system calls of [init]. *)
Record env := mkEnv {
  env_memfd     : Z;          (** return of [syscall(__NR_memfd_create)] *)
  env_ftruncate : bool;       (** [ftruncate] succeeds *)
  env_reserve   : option Z;   (** address of the [PROT_NONE] reservation *)
  env_map1      : bool;       (** fixed mapping of section 1 succeeds *)
  env_map2      : bool        (** fixed mapping of section 2 succeeds *)
}.

(** [CircularBuffer_memfd_create]: returns the descriptor, [-1] when it
    does not fit an [int], and [0] (the initial value of [cast]) when the
    system call fails.  Returns the new resources too. *)
Definition CircularBuffer_memfd_create (e : env) (os : list resource)
  : Z * list resource :=
  let fdl := env_memfd e in
  if 0 <=? fdl then
    (if fdl <=? INT_MAX then fdl else -1, OpenFd fdl :: os)
  else (0, os).

(** [munmap(addr, len)]: removes the mapping of that range; fails when
    none is there. *)
Fixpoint munmap (addr len : Z) (os : list resource) : bool * list resource :=
  match os with
  | [] => (false, [])
  | Mapping a l k :: rest =>
      if (a =? addr) && (l =? len) then (true, rest)
      else let '(ok, rest') := munmap addr len rest in (ok, Mapping a l k :: rest')
  | r :: rest => let '(ok, rest') := munmap addr len rest in (ok, r :: rest')
  end.

(** [close(f)] *)
Fixpoint close (f : Z) (os : list resource) : bool * list resource :=
  match os with
  | [] => (false, [])
  | OpenFd g :: rest =>
      if g =? f then (true, rest)
      else let '(ok, rest') := close f rest in (ok, OpenFd g :: rest')
  | r :: rest => let '(ok, rest') := close f rest in (ok, r :: rest')
  end.

(** [mmap(addr, len, ..., MAP_FIXED, f, 0)] over the reservation made at
    [a]: the reserved range [[a, a + 2 * len)] is split into the backed
    half and what is still reserved. *)
Definition map_fixed_section1 (a len f : Z) (os : list resource) : list resource :=
  Mapping a len (Backed f) :: Mapping (a + len) len Reserved
    :: snd (munmap a (wrap (2 * len)) os).

Definition map_fixed_section2 (a len f : Z) (os : list resource) : list resource :=
  Mapping (a + len) len (Backed f) :: snd (munmap (a + len) len os).

(** ** [CircularBuffer_init]

    [pagesize] is the value of [getpagesize()].  Returns the boolean
    result, the ring, and the process's resources. *)
Definition CircularBuffer_init (pagesize : Z) (e : env)
    (cbuff : option CircularBuffer_t) (os : list resource) (sz : Z)
  : bool * option CircularBuffer_t * list resource :=
  match cbuff with
  (* [cbuff == NULL]: the source jumps to [end], which unlocks
     [cbuff->mutex] through the null pointer (undefined behaviour).  The
     model returns false here; no stated property depends on this case. *)
  | None => (false, None, os)
  | Some cb =>
    if (sz <? 1) || (LONG_MAX <? sz) then (false, Some cb, os) else
    let whole_pages := wrap (sz / pagesize + (if 0 <? sz mod pagesize then 1 else 0)) in
    let real_size := wrap (whole_pages * pagesize) in
    let '(f, os1) := CircularBuffer_memfd_create e os in
    let cb1 := set_fd cb f in
    if f <? 0 then (false, Some cb1, os1) else
    if negb (env_ftruncate e) then (false, Some cb1, os1) else
    match (if wrap (2 * real_size) =? 0 then None else env_reserve e) with
    | None => (false, Some (set_buffer cb1 MAP_FAILED), os1)
    | Some a =>
      let cb2 := set_buffer cb1 a in
      let os2 := Mapping a (wrap (2 * real_size)) Reserved :: os1 in
      if negb (env_map1 e) then (false, Some cb2, os2) else
      let os3 := map_fixed_section1 a real_size f os2 in
      if negb (env_map2 e) then (false, Some cb2, os3) else
      let os4 := map_fixed_section2 a real_size f os3 in
      (* [ftruncate] gave a zero-filled object of [real_size] bytes *)
      let cb3 := mkCB (empty cb2) 0 0 (fd cb2) (buffer cb2) real_size
                      (repeat x00 (Z.to_nat real_size)) in
      (true, Some cb3, os4)
    end
  end.

(** ** [CircularBuffer_free] *)
Definition CircularBuffer_free (cbuff : option CircularBuffer_t) (os : list resource)
  : option CircularBuffer_t * list resource :=
  match cbuff with
  | None => (None, os)
  | Some cb =>
    let os1 := if negb (buffer cb =? NULL)
               then snd (munmap (wrap (buffer cb + size cb)) (size cb) os) else os in
    let os2 := if negb (buffer cb =? NULL)
               then snd (munmap (buffer cb) (size cb) os1) else os1 in
    let os3 := if negb (buffer cb =? NULL) then snd (close (fd cb) os2) else os2 in
    (* the mapping is gone: nothing is seen through [buffer] any more *)
    (Some (mkCB (empty cb) 0 0 0 NULL (size cb) []), os3)
  end.

(** ** States of an active ring

    [active_ring] holds of a ring after a successful [init] and is kept by
    [writeChunk] and [readChunk] (lemmas [init_active], [writeChunk_active],
    [readChunk_active] below): a positive capacity that fits the [size_t]
    arithmetic of the cursors, both cursors in [[0, size)], and a backing
    store of [size] bytes. *)
Definition active_ring (cb : CircularBuffer_t) : bool :=
  (0 <? size cb) && (size cb <? 2 ^ 63) &&
  (0 <=? read cb) && (read cb <? size cb) &&
  (0 <=? write cb) && (write cb <? size cb) &&
  (Z.of_nat (List.length (backing cb)) =? size cb).

End CircularBuffer.

(** * Concrete rings and hosts used by the examples below *)

Module Scenarios.
Import CircularBuffer.

(** A host whose system calls all succeed: [memfd_create] gives descriptor
    3 and the reservation is placed at address 0x100000. *)
Definition host_ok : env := mkEnv 3 true (Some 1048576) true true.

(** The same host when [ftruncate] fails. *)
Definition host_ftruncate_fails : env := mkEnv 3 false (Some 1048576) true true.

(** The same host when the fixed mapping of section 1, or of section 2,
    fails. *)
Definition host_map1_fails : env := mkEnv 3 true (Some 1048576) false true.
Definition host_map2_fails : env := mkEnv 3 true (Some 1048576) true false.

(** Capacity 4096 after 4000 bytes were written and none read
    (spec scenario 3, "fit refusal"). *)
Definition ring_4000 : CircularBuffer_t :=
  mkCB false 0 4000 3 1048576 4096 (repeat x01 4000 ++ repeat x00 96).

(** Capacity 4096, completely filled: [read = write], [empty = false]. *)
Definition ring_full : CircularBuffer_t :=
  mkCB false 0 0 3 1048576 4096 (repeat x01 4096).

(** Capacity 4096, empty, both cursors at 0. *)
Definition ring_empty : CircularBuffer_t :=
  mkCB true 0 0 3 1048576 4096 (repeat x00 4096).

End Scenarios.

(** * The comparison helpers of src/main.c

    [u_int8_t] buffers are lists of bytes; [size_t] indices are [nat] loop
    counters and [size_t] counts are [Z] with their wrap-around.  Reading
    past the end of either buffer is undefined ([None]). *)

Module TestDriver.
Import CircularBuffer.

Definition READ_CHUNKS : Z := 1000.

(** The loop of [checkEqual] from index [i], with [todo] iterations left. *)
Fixpoint checkEqual_from (buff_a buff_b : list byte) (i todo : nat) : option bool :=
  match todo with
  | O => Some true
  | S todo' =>
      match nth_error buff_a i, nth_error buff_b i with
      | Some x, Some y =>
          if negb (Byte.eqb x y) then Some false
          else checkEqual_from buff_a buff_b (S i) todo'
      | _, _ => None
      end
  end.

(** [checkEqual( buff_a, buff_b, length )] *)
Definition checkEqual (buff_a buff_b : list byte) (length : Z) : option bool :=
  checkEqual_from buff_a buff_b 0 (Z.to_nat length).

(** What [compareBuff] prints: a newline, or a value of [buff_b] in green
    or in red. *)
Inductive output := Newline | Green (x : byte) | Red (x : byte).

(** The loop of [compareBuff] from index [i], with [todo] iterations left
    and the count so far; returns the printed output and the final count. *)
Fixpoint compareBuff_from (buff_a buff_b : list byte) (i todo : nat) (diff_count : Z)
  : option (list output * Z) :=
  match todo with
  | O => Some ([], diff_count)
  | S todo' =>
      let nl := if Z.of_nat i mod READ_CHUNKS =? 0 then [Newline] else [] in
      match nth_error buff_a i, nth_error buff_b i with
      | Some x, Some y =>
          let '(ev, c) := if Byte.eqb x y then (Green y, diff_count)
                          else (Red y, wrap (diff_count + 1)) in
          match compareBuff_from buff_a buff_b (S i) todo' c with
          | Some (out, c') => Some (nl ++ ev :: out, c')
          | None => None
          end
      | _, _ => None
      end
  end.

(** [compareBuff( buff_a, buff_b, length )] *)
Definition compareBuff (buff_a buff_b : list byte) (length : Z)
  : option (list output * Z) :=
  compareBuff_from buff_a buff_b 0 (Z.to_nat length) 0.

End TestDriver.

(** * Properties *)

Module RingProofs.
Import CircularBuffer Scenarios.

(** ** Arithmetic of the cursors *)

Lemma active_ring_spec (cb : CircularBuffer_t) :
  active_ring cb = true <->
  0 < size cb < 2 ^ 63 /\ 0 <= read cb < size cb /\ 0 <= write cb < size cb /\
  Z.of_nat (List.length (backing cb)) = size cb.
Proof.
  unfold active_ring.
  rewrite !andb_true_iff, !Z.ltb_lt, !Z.leb_le, Z.eqb_eq.
  tauto.
Qed.

Ltac active_facts H :=
  apply active_ring_spec in H;
  destruct H as ([? ?] & [? ?] & [? ?] & ?).

Lemma wrap_small (x : Z) : 0 <= x < SIZE_T_MOD -> wrap x = x.
Proof. intros. unfold wrap. apply Z.mod_small. assumption. Qed.

Lemma umod_pos (a b : Z) : 0 < b -> umod a b = Some (a mod b).
Proof.
  intros Hb. unfold umod. destruct (Z.eqb_spec b 0); [lia | reflexivity].
Qed.

Lemma free_bytes_active (cb : CircularBuffer_t) :
  active_ring cb = true ->
  free_bytes cb = Some ((read cb + size cb - write cb) mod size cb).
Proof.
  intros H. active_facts H. unfold free_bytes, SIZE_T_MOD in *.
  rewrite (wrap_small (read cb + size cb)) by (unfold SIZE_T_MOD; lia).
  rewrite wrap_small by (unfold SIZE_T_MOD; lia).
  apply umod_pos. lia.
Qed.

Lemma bytes_available_active (cb : CircularBuffer_t) :
  active_ring cb = true ->
  bytes_available cb = Some ((write cb + size cb - read cb) mod size cb).
Proof.
  intros H. active_facts H. unfold bytes_available.
  rewrite (wrap_small (write cb + size cb)) by (unfold SIZE_T_MOD; lia).
  rewrite wrap_small by (unfold SIZE_T_MOD; lia).
  apply umod_pos. lia.
Qed.

(** [readChunk] on a non-empty active ring, with non-null arguments. *)
Lemma readChunk_step (cb : CircularBuffer_t) (length : Z) :
  active_ring cb = true -> empty cb = false -> 0 <= length ->
  let k := Z.min length ((write cb + size cb - read cb) mod size cb) in
  exists cb',
    CircularBuffer_readChunk false false cb length =
      ReadReturns cb'
        (map (fun i => virtual_byte (backing cb) (read cb + Z.of_nat i))
             (seq 0 (Z.to_nat k))) k /\
     read cb' = (read cb + k) mod size cb /\ write cb' = write cb /\
    backing cb' = backing cb /\ size cb' = size cb.
Proof.
  intros H He Hl k.
  pose proof H as Ha. active_facts Ha.
  unfold CircularBuffer_readChunk. simpl. rewrite He.
  rewrite (bytes_available_active cb H).
  set (avail := (write cb + size cb - read cb) mod size cb).
  assert (Hav : 0 <= avail < size cb) by (apply Z.mod_pos_bound; lia).
  assert (Hk : (if avail <? length then avail else length) = k).
  { unfold k. destruct (Z.ltb_spec avail length); lia. }
  rewrite Hk.
  assert (Hk' : 0 <= k <= avail) by (unfold k; lia).
  unfold memcpy_from_window, in_window.
  replace ((0 <=? read cb) && (0 <=? k) &&
           (read cb + k <=? 2 * Z.of_nat (List.length (backing cb)))) with true
    by (symmetry; rewrite !andb_true_iff, !Z.leb_le; lia).
  unfold CircularBuffer_advanceReadPos.
  rewrite wrap_small by (unfold SIZE_T_MOD; lia).
  rewrite umod_pos by lia.
  destruct (Z.eqb _ _); eexists; repeat split; reflexivity.
Qed.

(** ** No-fit rejection *)

(** C2: a [writeChunk] refused because the chunk does not fit (empty flag
    false and [length > free_bytes]) returns 0 and gives back the ring
    unchanged: same cursors, same empty flag, same bytes. *)
Theorem writeChunk_nofit_unchanged (cb : CircularBuffer_t) (src : list byte) (free : Z) :
  empty cb = false -> free_bytes cb = Some free ->
  free < Z.of_nat (List.length src) ->
  CircularBuffer_writeChunk cb src = WriteReturns cb 0.
Proof.
  intros He Hf Hlt. unfold CircularBuffer_writeChunk.
  rewrite Hf, He. simpl.
  destruct (Z.leb_spec (Z.of_nat (List.length src)) free); [lia | reflexivity].
Qed.

Lemma writeChunk_nofit_unchanged_witness :
  free_bytes ring_4000 = Some 96 /\
 CircularBuffer_writeChunk ring_4000 (repeat x02 200) = WriteReturns ring_4000 0.
Proof.
  split.
  - vm_compute. reflexivity.
  - apply (writeChunk_nofit_unchanged ring_4000 (repeat x02 200) 96);
      vm_compute; reflexivity.
Defined.

(** ** [readChunk] *)

(** C3: with non-null arguments, [readChunk] waits while the empty flag is
    set; otherwise it copies [min(n, available_bytes)] bytes read through
    the window from [base + r], where [available_bytes = (w + C - r) mod C],
    moves the read cursor by that count modulo [C], and returns the count. *)
Theorem readChunk_postcondition (cb : CircularBuffer_t) (length : Z) :
  active_ring cb = true -> 0 <= length ->
  (empty cb = true -> CircularBuffer_readChunk false false cb length = ReadBlocks) /\
  (empty cb = false ->
   let k := Z.min length ((write cb + size cb - read cb) mod size cb) in
   exists cb',
     CircularBuffer_readChunk false false cb length =
       ReadReturns cb'
         (map (fun i => virtual_byte (backing cb) (read cb + Z.of_nat i))
              (seq 0 (Z.to_nat k))) k /\
     read cb' = (read cb + k) mod size cb).
Proof.
  intros H Hl. split.
  - intros He. unfold CircularBuffer_readChunk. simpl. rewrite He. reflexivity.
  - intros He k.
    destruct (readChunk_step cb length H He Hl) as (cb' & Heq & Hr & _).
    exists cb'. split; assumption.
Qed.

Lemma readChunk_postcondition_witness :
  active_ring ring_4000 = true /\ 0 <= 200 /\
  (empty ring_4000 = true ->
   CircularBuffer_readChunk false false ring_4000 200 = ReadBlocks) /\
  (empty ring_4000 = false ->
   let k := Z.min 200 ((write ring_4000 + size ring_4000 - read ring_4000)
                       mod size ring_4000) in
   exists cb',
     CircularBuffer_readChunk false false ring_4000 200 =
       ReadReturns cb'
         (map (fun i => virtual_byte (backing ring_4000) (read ring_4000 + Z.of_nat i))
              (seq 0 (Z.to_nat k))) k /\
     read cb' = (read ring_4000 + k) mod size ring_4000).
Proof.
  assert (Ha : active_ring ring_4000 = true) by (vm_compute; reflexivity).
  assert (Hl : 0 <= 200) by lia.
  split; [exact Ha | split; [exact Hl | ]].
  exact (readChunk_postcondition ring_4000 200 Ha Hl).
Defined.

(** C4, as stated, fails: a request of 0 bytes on a non-empty active ring
    returns 0 with non-null arguments. *)
Lemma readChunk_zero_request :
  active_ring ring_4000 = true /\ empty ring_4000 = false /\
  CircularBuffer_readChunk false false ring_4000 0 = ReadReturns ring_4000 [] 0.
Proof. vm_compute. repeat split. Qed.

Lemma available_positive (cb : CircularBuffer_t) :
  active_ring cb = true -> read cb <> write cb ->
  0 < (write cb + size cb - read cb) mod size cb.
Proof.
  intros H Hne. active_facts H.
  destruct (Z.lt_ge_cases (write cb) (read cb)) as [Hlt | Hge].
  - rewrite Z.mod_small by lia. lia.
  - replace (write cb + size cb - read cb) with ((write cb - read cb) + 1 * size cb)
      by ring.
    rewrite Z_mod_plus_full, Z.mod_small by lia. lia.
Qed.

(** C4 (amended): with non-null arguments, a [readChunk] of [n >= 0]
    bytes that finds the ring non-empty returns [min(n, available_bytes)]
    bytes: a count in [(0, n]] when [n > 0] and [r <> w], and 0 with
    nothing copied when [n = 0]. *)
Theorem readChunk_positive (cb : CircularBuffer_t) (length : Z) :
  active_ring cb = true -> empty cb = false -> 0 <= length ->
  exists cb' out k,
    CircularBuffer_readChunk false false cb length = ReadReturns cb' out k /\
    k = Z.min length ((write cb + size cb - read cb) mod size cb) /\
    (0 < length -> read cb <> write cb -> 0 < k <= length) /\
    (length = 0 -> k = 0 /\ out = []).
Proof.
  intros H He Hl. pose proof H as Ha. active_facts Ha.
  destruct (readChunk_step cb length H He Hl) as (cb' & Heq & _).
  pose proof (Z.mod_pos_bound (write cb + size cb - read cb) (size cb) ltac:(lia)).
  do 3 eexists. split; [exact Heq | ]. split; [reflexivity | ]. split.
  - intros Hpos Hne. pose proof (available_positive cb H Hne). lia.
  - intros Hz. subst length.
    replace (Z.min 0 ((write cb + size cb - read cb) mod size cb)) with 0 by lia.
    split; reflexivity.
Qed.

Lemma readChunk_positive_witness :
  exists cb' out k,
    CircularBuffer_readChunk false false ring_4000 200 = ReadReturns cb' out k /\
    k = Z.min 200 ((write ring_4000 + size ring_4000 - read ring_4000) mod size ring_4000) /\
    (0 < 200 -> read ring_4000 <> write ring_4000 -> 0 < k <= 200) /\
    (200 = 0 -> k = 0 /\ out = []).
Proof.
  apply (readChunk_positive ring_4000 200).
  - vm_compute. reflexivity.
  - vm_compute. reflexivity.
  - lia.
Defined.

(** ** Accounting on a full ring *)

(** C1 (code defect): on a reachable full ring the quantities the code
    computes do not add up to the capacity.  After [init(4096)] and a single
    4096-byte [writeChunk], [read = write] with the empty flag false, yet
    both [bytes_available] (line 285) and [free_bytes] (line 225) are 0;
    a following [readChunk] of 4096 bytes copies nothing, returns 0, and
    sets the empty flag, so the 4096 bytes written are lost. *)
Theorem full_ring_accounting_broken :
  match CircularBuffer_init 4096 host_ok (Some CircularBuffer_create) [] 4096 with
  | (true, Some cb0, _) =>
    match CircularBuffer_writeChunk cb0 (repeat x01 4096) with
    | WriteReturns cb1 n =>
        n = 4096 /\ read cb1 = write cb1 /\ empty cb1 = false /\
        bytes_available cb1 = Some 0 /\ free_bytes cb1 = Some 0 /\
        match CircularBuffer_readChunk false false cb1 4096 with
        | ReadReturns cb2 out k => k = 0 /\ out = [] /\ empty cb2 = true
        | _ => False
        end
    | WriteUB => False
    end
  | _ => False
  end.
Proof. vm_compute. repeat split. Qed.

(** ** Advancing the cursors *)

Lemma set_write_same (cb : CircularBuffer_t) : set_write cb (write cb) = cb.
Proof. destruct cb; reflexivity. Qed.

Lemma set_read_same (cb : CircularBuffer_t) : set_read cb (read cb) = cb.
Proof. destruct cb; reflexivity. Qed.

Lemma set_empty_set_write (cb : CircularBuffer_t) (e : bool) :
  set_empty (set_write cb (write cb)) e = set_empty cb e.
Proof. destruct cb; reflexivity. Qed.

(** C5, as stated, fails: on a full ring ([read = write], empty flag
    false) [advanceReadPos] by 0 sets the empty flag. *)
Lemma advanceRead_zero_full_ring :
  active_ring ring_full = true /\ read ring_full = write ring_full /\
  empty ring_full = false /\
  CircularBuffer_advanceReadPos ring_full 0 = Some (set_empty ring_full true).
Proof. vm_compute. repeat split. Qed.

(** C5 (amended): on an active ring, advancing the write cursor by 0
    changes nothing; advancing the read cursor by 0 keeps both cursors and
    keeps the empty flag except when [read = write], where it sets it; and
    when [read = write], advancing the write cursor by the capacity keeps
    the cursor and leaves the empty flag false. *)
Theorem advance_by_zero (cb : CircularBuffer_t) :
  active_ring cb = true ->
  CircularBuffer_advanceWritePos cb 0 = Some cb /\
  CircularBuffer_advanceReadPos cb 0 =
    Some (if read cb =? write cb then set_empty cb true else cb) /\
  (read cb = write cb ->
   CircularBuffer_advanceWritePos cb (size cb) = Some (set_empty cb false)).
Proof.
  intros H. pose proof H as Ha. active_facts Ha.
  split; [ | split].
  - unfold CircularBuffer_advanceWritePos.
    rewrite Z.add_0_r, wrap_small by (unfold SIZE_T_MOD; lia).
    rewrite umod_pos, Z.mod_small by lia. simpl.
    rewrite set_write_same. reflexivity.
  - unfold CircularBuffer_advanceReadPos.
    rewrite Z.add_0_r, wrap_small by (unfold SIZE_T_MOD; lia).
    rewrite umod_pos, Z.mod_small by lia.
    rewrite set_read_same. reflexivity.
  - intros _. unfold CircularBuffer_advanceWritePos.
    rewrite wrap_small by (unfold SIZE_T_MOD; lia).
    rewrite umod_pos by lia.
    replace (write cb + size cb) with (write cb + 1 * size cb) by ring.
    rewrite Z_mod_plus_full, Z.mod_small by lia.
    replace (size cb =? 0) with false by (symmetry; apply Z.eqb_neq; lia).
    simpl. rewrite set_empty_set_write. reflexivity.
Qed.

Lemma advance_by_zero_witness :
  CircularBuffer_advanceWritePos ring_full 0 = Some ring_full /\
  CircularBuffer_advanceReadPos ring_full 0 =
    Some (if read ring_full =? write ring_full then set_empty ring_full true
          else ring_full) /\
  (read ring_full = write ring_full ->
   CircularBuffer_advanceWritePos ring_full (size ring_full) =
     Some (set_empty ring_full false)).
Proof. apply advance_by_zero. vm_compute. reflexivity. Defined.

(** ** Teardown *)

(** C6 (code defect): [free] zeroes the descriptor, the buffer pointer and
    both cursors but neither [size] nor the empty flag.  After [init(4096)],
    a 10-byte write and [free], [size] still returns 4096 and [empty]
    returns false, after one call and after a second one; the second call
    gives the same ring and releases nothing more. *)
Theorem free_keeps_size_and_flag :
  match CircularBuffer_init 4096 host_ok (Some CircularBuffer_create) [] 4096 with
  | (true, Some cb0, os0) =>
    match CircularBuffer_writeChunk cb0 (repeat x01 10) with
    | WriteReturns cb1 _ =>
      let '(r1, os1) := CircularBuffer_free (Some cb1) os0 in
      let '(r2, os2) := CircularBuffer_free r1 os1 in
      CircularBuffer_size r1 = 4096 /\ CircularBuffer_empty r1 = false /\
      CircularBuffer_size r2 = 4096 /\ CircularBuffer_empty r2 = false /\
      r2 = r1 /\ os1 = [] /\ os2 = []
    | WriteUB => False
    end
  | _ => False
  end.
Proof. vm_compute. repeat split. Qed.

(** C9 (code defect): [init] sets the capacity and both cursors but not
    the empty flag.  A ring that was written to and freed (and [free] does
    not reset the flag either) is initialised again successfully with the
    empty flag false: a fresh 4096-byte ring that reports itself full, on
    which [readChunk] does not wait but returns 0 bytes. *)
Theorem reinit_keeps_empty_flag :
  match CircularBuffer_init 4096 host_ok (Some CircularBuffer_create) [] 4096 with
  | (true, Some cb0, os0) =>
    match CircularBuffer_writeChunk cb0 [x01] with
    | WriteReturns cb1 _ =>
      let '(r1, os1) := CircularBuffer_free (Some cb1) os0 in
      match CircularBuffer_init 4096 host_ok r1 os1 4096 with
      | (true, Some cb2, _) =>
          size cb2 = 4096 /\ read cb2 = 0 /\ write cb2 = 0 /\ empty cb2 = false /\
          match CircularBuffer_readChunk false false cb2 10 with
          | ReadReturns _ out k => k = 0 /\ out = []
          | _ => False
          end
      | _ => False
      end
    | WriteUB => False
    end
  | _ => False
  end.
Proof. vm_compute. repeat split. Qed.

(** ** Initialisation *)

Ltac split_init H :=
  repeat match type of H with
  | context [if ?b then _ else _] => destruct b eqn:?
  | context [match ?x with Some _ => _ | None => _ end] => destruct x eqn:?
  | context [match ?x with (_, _) => _ end] => destruct x eqn:?
  end.

(** A failing [init] changes nothing but the descriptor and the buffer
    pointer of the ring. *)
Lemma init_failure_fields (p : Z) (e : env) (cb cb' : CircularBuffer_t)
    (os os' : list resource) (sz : Z) :
  CircularBuffer_init p e (Some cb) os sz = (false, Some cb', os') ->
  empty cb' = empty cb /\ read cb' = read cb /\ write cb' = write cb /\
  size cb' = size cb /\ backing cb' = backing cb.
Proof.
  unfold CircularBuffer_init. intros H.
  split_init H; inversion H; subst; simpl; repeat split.
Qed.

(** C7, as stated, fails: after [init] refuses the size 0 on a fresh ring,
    [writeChunk] computes its free space modulo the zero capacity
    (undefined behaviour) and [readChunk] waits. *)
Lemma failed_init_write_undefined :
  match CircularBuffer_init 4096 host_ok (Some CircularBuffer_create) [] 0 with
  | (false, Some cb, _) =>
      CircularBuffer_size (Some cb) = 0 /\ CircularBuffer_empty (Some cb) = true /\
      CircularBuffer_writeChunk cb [x01] = WriteUB /\
      CircularBuffer_readChunk false false cb 1 = ReadBlocks
  | _ => False
  end.
Proof. vm_compute. repeat split. Qed.

(** C7 (amended): a failing [init] leaves the capacity, both cursors and
    the empty flag of any ring as they were.  So after a failed [init] on a
    ring fresh from [create], [size] returns 0, [empty] returns true and
    both cursors are 0; then [readChunk] with non-null arguments waits on
    the empty flag, and [writeChunk] of any chunk is undefined (its
    [% size] divides by 0). *)
Theorem failed_init_fresh_ring (p : Z) (e : env) (os os' : list resource) (sz : Z)
    (cb0 cb : CircularBuffer_t) :
  CircularBuffer_init p e (Some cb0) os sz = (false, Some cb, os') ->
  size cb = size cb0 /\ read cb = read cb0 /\ write cb = write cb0 /\
  empty cb = empty cb0 /\
  (cb0 = CircularBuffer_create ->
   CircularBuffer_size (Some cb) = 0 /\ CircularBuffer_empty (Some cb) = true /\
   read cb = 0 /\ write cb = 0 /\
   (forall length, CircularBuffer_readChunk false false cb length = ReadBlocks) /\
   (forall src, CircularBuffer_writeChunk cb src = WriteUB)).
Proof.
  intros H.
  destruct (init_failure_fields p e _ _ _ _ _ H) as (He & Hr & Hw & Hs & _).
  split; [exact Hs | split; [exact Hr | split; [exact Hw | split; [exact He | ]]]].
  intros E. subst cb0. simpl in *. repeat split; try assumption.
  - intros length. unfold CircularBuffer_readChunk. simpl. rewrite He. reflexivity.
  - intros src. unfold CircularBuffer_writeChunk, free_bytes, umod.
    rewrite Hs. reflexivity.
Qed.

Lemma failed_init_fresh_ring_witness :
  size (set_fd CircularBuffer_create 3) = size CircularBuffer_create /\
  read (set_fd CircularBuffer_create 3) = read CircularBuffer_create /\
  write (set_fd CircularBuffer_create 3) = write CircularBuffer_create /\
  empty (set_fd CircularBuffer_create 3) = empty CircularBuffer_create /\
  (CircularBuffer_create = CircularBuffer_create ->
   CircularBuffer_size (Some (set_fd CircularBuffer_create 3)) = 0 /\
   CircularBuffer_empty (Some (set_fd CircularBuffer_create 3)) = true /\
   read (set_fd CircularBuffer_create 3) = 0 /\ write (set_fd CircularBuffer_create 3) = 0 /\
   (forall length, CircularBuffer_readChunk false false (set_fd CircularBuffer_create 3)
                     length = ReadBlocks) /\
   (forall src, CircularBuffer_writeChunk (set_fd CircularBuffer_create 3) src = WriteUB)).
Proof.
  apply (failed_init_fresh_ring 4096 host_ftruncate_fails [] [OpenFd 3] 4096
           CircularBuffer_create).
  vm_compute. reflexivity.
Defined.

Lemma munmap_head (a l : Z) (k : map_kind) (os : list resource) :
  munmap a l (Mapping a l k :: os) = (true, os).
Proof. simpl. rewrite !Z.eqb_refl. reflexivity. Qed.

Lemma munmap_keeps_tail (a l : Z) (k1 k2 : map_kind) (os : list resource) :
  incl os (snd (munmap (a + l) l (Mapping a l k1 :: Mapping (a + l) l k2 :: os))).
Proof.
  intros x Hx. simpl. rewrite !Z.eqb_refl. simpl.
  destruct (a =? a + l); simpl; right; exact Hx.
Qed.

(** [init] releases no resource, on success or failure: every resource
    held before the call is still held after it.  When it fails after
    [memfd_create] gave a descriptor, that descriptor is still open and
    stored in the ring's [fd]. *)
Lemma init_releases_nothing (p : Z) (e : env) (cb cb' : CircularBuffer_t)
    (os os' : list resource) (sz : Z) (ok : bool) :
  CircularBuffer_init p e (Some cb) os sz = (ok, Some cb', os') ->
  incl os os' /\
  (ok = false -> 1 <= sz <= LONG_MAX -> 0 <= env_memfd e <= INT_MAX ->
   In (OpenFd (env_memfd e)) os' /\ fd cb' = env_memfd e).
Proof.
  unfold CircularBuffer_init, CircularBuffer_memfd_create.
  intros H.
  split_init H; inversion H; subst; clear H;
    unfold map_fixed_section1, map_fixed_section2; rewrite ?munmap_head; simpl snd.
  all: split.
  all: try (intros x Hx; simpl; tauto).
  all: try (intros x Hx; right; apply munmap_keeps_tail; simpl; tauto).
  all: try discriminate.
  all: intros _ Hs Hm.
  all: repeat match goal with
       | E : (_ || _) = true |- _ =>
           apply orb_true_iff in E; rewrite !Z.ltb_lt in E; lia
       | E : (0 <=? _) = false |- _ => apply Z.leb_gt in E; lia
       | E : (_ <=? INT_MAX) = false |- _ => apply Z.leb_gt in E; lia
       end.
  all: simpl; split; [tauto | ].
  all: repeat match goal with
       | E : (_ <=? INT_MAX) = true |- _ => rewrite E in *
       | E : (0 <=? _) = true |- _ => rewrite E in *
       end; reflexivity.
Qed.

(** C8 (code defect): no failing [init] releases anything it acquired, and
    [free] cannot release it afterwards.  On a fresh ring of 4096 bytes:
    - when [ftruncate] fails, [init] returns false with descriptor 3 open;
      the ring's [buffer] is still [NULL], so [free] skips its [munmap] and
      [close] calls and descriptor 3 stays open;
    - when the fixed mapping of section 1 fails, the [2 * 4096]-byte
      reservation stays mapped; the ring's [size] is still 0, so the
      [munmap] calls of [free] (of length 0) fail and only the descriptor
      is closed;
    - when the fixed mapping of section 2 fails, section 1 and the rest of
      the reservation stay mapped, and [free] again closes only the
      descriptor. *)
Theorem init_failure_leaks :
  (forall p e cb cb' os os' sz ok,
     CircularBuffer_init p e (Some cb) os sz = (ok, Some cb', os') -> incl os os') /\
  match CircularBuffer_init 4096 host_ftruncate_fails (Some CircularBuffer_create) [] 4096 with
  | (false, Some cb, os) =>
      os = [OpenFd 3] /\ fd cb = 3 /\ buffer cb = NULL /\
      snd (CircularBuffer_free (Some cb) os) = [OpenFd 3]
  | _ => False
  end /\
  match CircularBuffer_init 4096 host_map1_fails (Some CircularBuffer_create) [] 4096 with
  | (false, Some cb, os) =>
      os = [Mapping 1048576 8192 Reserved; OpenFd 3] /\ size cb = 0 /\
      snd (CircularBuffer_free (Some cb) os) = [Mapping 1048576 8192 Reserved]
  | _ => False
  end /\
  match CircularBuffer_init 4096 host_map2_fails (Some CircularBuffer_create) [] 4096 with
  | (false, Some cb, os) =>
      os = [Mapping 1048576 4096 (Backed 3); Mapping 1052672 4096 Reserved; OpenFd 3] /\
      size cb = 0 /\
      snd (CircularBuffer_free (Some cb) os) =
        [Mapping 1048576 4096 (Backed 3); Mapping 1052672 4096 Reserved]
  | _ => False
  end.
Proof.
  split.
  - intros p e cb cb' os os' sz ok H.
    exact (proj1 (init_releases_nothing p e cb cb' os os' sz ok H)).
  - vm_compute. repeat split.
Qed.

(** ** Capacity rounding and the states of an active ring *)

Lemma round_up_pages (p sz : Z) :
  0 < p <= INT_MAX -> 1 <= sz <= LONG_MAX ->
  let q := sz / p + (if 0 <? sz mod p then 1 else 0) in
  wrap (wrap q * p) = q * p /\ (q * p) mod p = 0 /\ sz <= q * p < sz + p.
Proof.
  intros Hp Hsz q. unfold INT_MAX, LONG_MAX in *.
  pose proof (Z.div_mod sz p ltac:(lia)) as Hdm.
  pose proof (Z.mod_pos_bound sz p ltac:(lia)) as Hm.
  assert (Hd : 0 <= sz / p) by (apply Z.div_pos; lia).
  assert (Hq : q * p <= sz + p /\ sz <= q * p /\ (0 < sz mod p -> q * p < sz + p)
               /\ (sz mod p = 0 -> q * p = sz)).
  { unfold q. destruct (Z.ltb_spec 0 (sz mod p)); nia. }
  assert (Hq0 : 0 <= q) by (unfold q; destruct (0 <? sz mod p); lia).
  rewrite (wrap_small q) by (unfold SIZE_T_MOD; nia).
  rewrite wrap_small by (unfold SIZE_T_MOD; nia).
  split; [reflexivity | split; [apply Z.mod_mul; lia | ]].
  destruct (Z.eq_dec (sz mod p) 0); [ | ]; lia.
Qed.

(** A successful [init] rounds the requested size up to the smallest
    multiple of the page size that holds it, and sets both cursors to 0;
    the empty flag is the one the ring had before the call. *)
Lemma init_capacity_rounding (p : Z) (e : env) (cb cb' : CircularBuffer_t)
    (os os' : list resource) (sz : Z) :
  0 < p <= INT_MAX ->
  CircularBuffer_init p e (Some cb) os sz = (true, Some cb', os') ->
  1 <= sz <= LONG_MAX /\ size cb' mod p = 0 /\ sz <= size cb' < sz + p /\
  read cb' = 0 /\ write cb' = 0 /\ empty cb' = empty cb /\
  Z.of_nat (List.length (backing cb')) = size cb'.
Proof.
  intros Hp H. unfold CircularBuffer_init in H. cbv zeta in H.
  destruct ((sz <? 1) || (LONG_MAX <? sz)) eqn:Hsz; [discriminate | ].
  apply orb_false_iff in Hsz. destruct Hsz as [H1 H2].
  apply Z.ltb_ge in H1. apply Z.ltb_ge in H2.
  destruct (round_up_pages p sz Hp ltac:(lia)) as (Hr & Hmod & Hb).
  set (q := sz / p + (if 0 <? sz mod p then 1 else 0)) in *.
  rewrite Hr in H.
  split_init H; try discriminate.
  inversion H; subst; clear H. simpl.
  rewrite repeat_length, Z2Nat.id by lia.
  repeat split; try lia; assumption.
Qed.

Lemma length_list_set (l : list byte) (i : nat) (x : byte) :
  List.length (list_set l i x) = List.length l.
Proof.
  revert i. induction l as [ | h t IH]; intros [ | i]; simpl; auto.
Qed.

Lemma length_store_bytes (src mem : list byte) (off : Z) :
  List.length (store_bytes mem off src) = List.length mem.
Proof.
  revert mem off. induction src as [ | b rest IH]; intros mem off; simpl.
  - reflexivity.
  - rewrite IH. apply length_list_set.
Qed.

(** ** Stores through the window *)

Lemma nth_list_set (l : list byte) (i k : nat) (x d : byte) :
  (i < List.length l)%nat ->
  nth k (list_set l i x) d = if Nat.eqb k i then x else nth k l d.
Proof.
  revert i k. induction l as [ | h t IH]; intros i k Hi; simpl in *; [lia | ].
  destruct i as [ | i], k as [ | k]; simpl; try reflexivity.
  apply IH. lia.
Qed.

(** Offsets modulo the capacity: [(j - off) mod C] is 0 exactly when
    [j] and [off] name the same slot, and stepping [off] by one steps it
    back by one. *)
Lemma mod_slot_facts (C j off : Z) :
  0 < C ->
  let d := (j - off) mod C in
  (d = 0 <-> j mod C = off mod C) /\
  (j - (off + 1)) mod C = (if d =? 0 then C - 1 else d - 1).
Proof.
  intros HC d.
  pose proof (Z.div_mod j C ltac:(lia)) as Hj.
  pose proof (Z.div_mod off C ltac:(lia)) as Ho.
  pose proof (Z.mod_pos_bound j C HC) as Bj.
  pose proof (Z.mod_pos_bound off C HC) as Bo.
  set (rj := j mod C) in *. set (ro := off mod C) in *.
  set (qj := j / C) in *. set (qo := off / C) in *.
  assert (Hd : d = if ro <=? rj then rj - ro else rj - ro + C).
  { unfold d. symmetry. destruct (Z.leb_spec ro rj).
    - apply (Z.mod_unique _ _ (qj - qo)); [left; lia | lia].
    - apply (Z.mod_unique _ _ (qj - qo - 1)); [left; lia | lia]. }
  split.
  - rewrite Hd. destruct (Z.leb_spec ro rj); lia.
  - rewrite Hd. destruct (Z.leb_spec ro rj).
    + destruct (Z.eqb_spec (rj - ro) 0).
      * symmetry. apply (Z.mod_unique _ _ (qj - qo - 1)); [left; lia | lia].
      * symmetry. apply (Z.mod_unique _ _ (qj - qo)); [left; lia | lia].
    + destruct (Z.eqb_spec (rj - ro + C) 0); [lia | ].
      symmetry. apply (Z.mod_unique _ _ (qj - qo - 1)); [left; lia | lia].
Qed.

(** After a store of at most [C] bytes at [off], the window shows at [j]
    the byte [src[(j - off) mod C]] when that index is inside [src], and
    the old byte otherwise. *)
Lemma virtual_byte_store (src mem : list byte) (off j : Z) :
  0 < Z.of_nat (List.length mem) ->
  Z.of_nat (List.length src) <= Z.of_nat (List.length mem) ->
  virtual_byte (store_bytes mem off src) j =
    let d := (j - off) mod Z.of_nat (List.length mem) in
    if d <? Z.of_nat (List.length src) then nth (Z.to_nat d) src x00
    else virtual_byte mem j.
Proof.
  revert mem off. induction src as [ | b rest IH]; intros mem off HC Hn; simpl.
  - destruct (Z.ltb_spec ((j - off) mod Z.of_nat (List.length mem)) 0); [ | reflexivity].
    pose proof (Z.mod_pos_bound (j - off) _ HC). lia.
  - set (C := Z.of_nat (List.length mem)) in *.
    set (mem1 := list_set mem (Z.to_nat (off mod C)) b).
    assert (Hl1 : List.length mem1 = List.length mem) by apply length_list_set.
    rewrite IH by (rewrite Hl1; simpl in Hn; lia).
    rewrite Hl1. fold C. cbv zeta.
    destruct (mod_slot_facts C j off HC) as [Hz Hstep].
    rewrite Hstep.
    pose proof (Z.mod_pos_bound (j - off) C HC) as Bd.
    pose proof (Z.mod_pos_bound j C HC) as Bj.
    pose proof (Z.mod_pos_bound off C HC) as Bo.
    set (d := (j - off) mod C) in *.
    simpl List.length in Hn. rewrite Nat2Z.inj_succ in Hn. rewrite Zpos_P_of_succ_nat.
    destruct (Z.eqb_spec d 0) as [E | E].
    + destruct (Z.ltb_spec (C - 1) (Z.of_nat (List.length rest))); [lia | ].
      destruct (Z.ltb_spec d (Z.succ (Z.of_nat (List.length rest)))); [ | lia].
      rewrite E. simpl.
      unfold virtual_byte. fold C. rewrite Hl1. fold C.
      unfold mem1. rewrite nth_list_set by (unfold C in *; lia).
      apply Hz in E. rewrite E, Nat.eqb_refl. reflexivity.
    + destruct (Z.ltb_spec (d - 1) (Z.of_nat (List.length rest)));
        destruct (Z.ltb_spec d (Z.succ (Z.of_nat (List.length rest)))); try lia.
      * replace (Z.to_nat d) with (S (Z.to_nat (d - 1))) by lia. reflexivity.
      * unfold virtual_byte. fold C. rewrite Hl1. fold C.
        unfold mem1. rewrite nth_list_set by (unfold C in *; lia).
        destruct (Nat.eqb_spec (Z.to_nat (j mod C)) (Z.to_nat (off mod C))) as [E' | E'];
          [ | reflexivity].
        exfalso. apply E. apply Hz. lia.
Qed.

Lemma init_active (p : Z) (e : env) (cb cb' : CircularBuffer_t)
    (os os' : list resource) (sz : Z) :
  0 < p <= INT_MAX -> sz + p <= 2 ^ 63 ->
  CircularBuffer_init p e (Some cb) os sz = (true, Some cb', os') ->
  active_ring cb' = true.
Proof.
  intros Hp Hb H.
  destruct (init_capacity_rounding p e cb cb' os os' sz Hp H)
    as (Hsz & _ & Hs & Hr & Hw & _ & Hl).
  apply active_ring_spec. lia.
Qed.

Lemma writeChunk_active (cb cb' : CircularBuffer_t) (src : list byte) (n : Z) :
  active_ring cb = true ->
  CircularBuffer_writeChunk cb src = WriteReturns cb' n ->
  active_ring cb' = true.
Proof.
  intros H Hw. pose proof H as Ha. active_facts Ha.
  unfold CircularBuffer_writeChunk in Hw. rewrite (free_bytes_active cb H) in Hw.
  destruct (_ || _); [ | inversion Hw; subst; exact H].
  unfold memcpy_to_window in Hw.
  destruct (in_window _ _ _); [ | discriminate].
  unfold CircularBuffer_advanceWritePos in Hw. simpl in Hw.
  rewrite umod_pos in Hw by lia.
  pose proof (Z.mod_pos_bound (wrap (write cb + Z.of_nat (List.length src))) (size cb)
                ltac:(lia)).
  apply active_ring_spec.
  destruct (negb _); inversion Hw; subst; simpl;
    rewrite length_store_bytes; lia.
Qed.

Lemma readChunk_active (cb cb' : CircularBuffer_t) (b1 b2 : bool) (length : Z)
    (out : list byte) (k : Z) :
  active_ring cb = true ->
  CircularBuffer_readChunk b1 b2 cb length = ReadReturns cb' out k ->
  active_ring cb' = true.
Proof.
  intros H Hr. pose proof H as Ha. active_facts Ha.
  unfold CircularBuffer_readChunk in Hr.
  destruct (b1 || b2); [inversion Hr; subst; exact H | ].
  destruct (empty cb); [discriminate | ].
  rewrite (bytes_available_active cb H) in Hr.
  destruct (memcpy_from_window _ _ _); [ | discriminate].
  unfold CircularBuffer_advanceReadPos in Hr.
  rewrite umod_pos in Hr by lia.
  match type of Hr with
  | context [wrap (read cb + ?x) mod size cb] =>
      pose proof (Z.mod_pos_bound (wrap (read cb + x)) (size cb) ltac:(lia))
  end.
  apply active_ring_spec.
  destruct (_ =? _); inversion Hr; subst; simpl; lia.
Qed.

(** ** [writeChunk] on an empty ring *)

(** C10, as stated, fails: on an empty ring of capacity 4096 with the write
    cursor at 0, a chunk of 8193 bytes is accepted by the empty-flag branch
    but its copy runs past the [2 * 4096]-byte window (undefined behaviour),
    so the call does not return 8193. *)
Lemma writeChunk_past_window :
  active_ring ring_empty = true /\ empty ring_empty = true /\
  CircularBuffer_writeChunk ring_empty (repeat x01 (Z.to_nat 8193)) = WriteUB.
Proof. vm_compute. repeat split. Qed.

(** C10 (amended): on an active ring whose empty flag is set, [writeChunk]
    takes the accepting branch for a chunk of any length [n], with no check
    against the capacity or the window.  When [w + n <= 2 * C] (also for
    [n > C]) it returns [n], moves the write cursor to [(w + n) mod C],
    leaves the read cursor alone and clears the empty flag when [n > 0];
    when [n <= C] the window then shows the [n] bytes of the chunk from
    [base + w] on and the old bytes in the rest of the ring.  When
    [w + n > 2 * C] the copy leaves the mapped window, which is undefined
    behaviour. *)
Theorem writeChunk_empty_accepts (cb : CircularBuffer_t) (src : list byte) :
  active_ring cb = true -> empty cb = true ->
  let n := Z.of_nat (List.length src) in
  (write cb + n <= 2 * size cb ->
   exists cb',
     CircularBuffer_writeChunk cb src = WriteReturns cb' n /\
     write cb' = (write cb + n) mod size cb /\ read cb' = read cb /\
     empty cb' = (n =? 0) /\
     (n <= size cb ->
      forall j, 0 <= j < size cb ->
        virtual_byte (backing cb') (write cb + j) =
          if j <? n then nth (Z.to_nat j) src x00
          else virtual_byte (backing cb) (write cb + j))) /\
  (2 * size cb < write cb + n -> CircularBuffer_writeChunk cb src = WriteUB).
Proof.
  intros H He n. pose proof H as Ha. active_facts Ha.
  unfold CircularBuffer_writeChunk. rewrite (free_bytes_active cb H), He.
  simpl orb. cbv zeta. fold n.
  unfold memcpy_to_window, in_window. fold n.
  split.
  - intros Hw.
    replace ((0 <=? write cb) && (0 <=? n) &&
             (write cb + n <=? 2 * Z.of_nat (List.length (backing cb)))) with true
      by (symmetry; unfold n in *; rewrite !andb_true_iff, !Z.leb_le; lia).
    unfold CircularBuffer_advanceWritePos. simpl.
    rewrite wrap_small by (unfold SIZE_T_MOD, n in *; lia).
    rewrite umod_pos by lia.
    assert (Hc : n <= size cb ->
      forall j, 0 <= j < size cb ->
        virtual_byte (store_bytes (backing cb) (write cb) src) (write cb + j) =
          if j <? n then nth (Z.to_nat j) src x00
          else virtual_byte (backing cb) (write cb + j)).
    { intros Hn j Hj. rewrite virtual_byte_store by (unfold n in *; lia).
      cbv zeta.
      match goal with Hl : Z.of_nat (List.length (backing cb)) = size cb |- _ =>
        rewrite Hl end.
      replace (write cb + j - write cb) with j by lia.
      rewrite Z.mod_small by lia. reflexivity. }
    destruct (n =? 0) eqn:Hn; simpl; eexists; repeat split; simpl; auto.
  - intros Hgt.
    replace ((0 <=? write cb) && (0 <=? n) &&
             (write cb + n <=? 2 * Z.of_nat (List.length (backing cb)))) with false
      by (symmetry; rewrite andb_false_iff; right; apply Z.leb_gt; lia).
    reflexivity.
Qed.

Lemma writeChunk_empty_accepts_witness :
  let n := Z.of_nat (List.length (repeat x01 4000)) in
  (write ring_empty + n <= 2 * size ring_empty ->
   exists cb',
     CircularBuffer_writeChunk ring_empty (repeat x01 4000) = WriteReturns cb' n /\
     write cb' = (write ring_empty + n) mod size ring_empty /\
     read cb' = read ring_empty /\
     empty cb' = (n =? 0) /\
     (n <= size ring_empty ->
      forall j, 0 <= j < size ring_empty ->
        virtual_byte (backing cb') (write ring_empty + j) =
          if j <? n then nth (Z.to_nat j) (repeat x01 4000) x00
          else virtual_byte (backing ring_empty) (write ring_empty + j))) /\
  (2 * size ring_empty < write ring_empty + n ->
   CircularBuffer_writeChunk ring_empty (repeat x01 4000) = WriteUB).
Proof.
  apply writeChunk_empty_accepts; vm_compute; reflexivity.
Defined.

End RingProofs.

(** * Further properties of the ring *)

Module RingLemmas.
Import CircularBuffer Scenarios RingProofs.

(** A value of [[0, 2 * C)] reduced modulo [C]. *)
Lemma mod_reduce (x C : Z) :
  0 < C -> 0 <= x < 2 * C -> x mod C = if x <? C then x else x - C.
Proof.
  intros HC Hx. destruct (Z.ltb_spec x C).
  - apply Z.mod_small. lia.
  - symmetry. apply (Z.mod_unique _ _ 1); [left; lia | lia].
Qed.

(** A list is the map of any function that gives its bytes from index [s]
    on. *)
Lemma map_seq_nth (f : nat -> byte) (l : list byte) (s : nat) :
  (forall j, (j < List.length l)%nat -> f (s + j)%nat = nth j l x00) ->
  map f (seq s (List.length l)) = l.
Proof.
  intros Hf. apply nth_ext with (d := x00) (d' := x00).
  - rewrite length_map, length_seq. reflexivity.
  - intros j Hj. rewrite length_map, length_seq in Hj.
    rewrite nth_indep with (d' := f 0%nat) by (rewrite length_map, length_seq; lia).
    rewrite map_nth, seq_nth by lia. apply Hf. lia.
Qed.

(** [writeChunk] on an active ring when the chunk is accepted and its copy
    stays inside the window: the full ring it returns. *)
Lemma writeChunk_exact (cb : CircularBuffer_t) (src : list byte) :
  active_ring cb = true ->
  (if empty cb then write cb + Z.of_nat (List.length src) <= 2 * size cb
   else Z.of_nat (List.length src) <= (read cb + size cb - write cb) mod size cb) ->
  CircularBuffer_writeChunk cb src =
    WriteReturns
      (mkCB (if Z.of_nat (List.length src) =? 0 then empty cb else false) (read cb)
            ((write cb + Z.of_nat (List.length src)) mod size cb) (fd cb) (buffer cb)
            (size cb) (store_bytes (backing cb) (write cb) src))
      (Z.of_nat (List.length src)).
Proof.
  intros H Hfit. pose proof H as Ha. active_facts Ha.
  unfold CircularBuffer_writeChunk. rewrite (free_bytes_active cb H). cbv zeta.
  set (n := Z.of_nat (List.length src)) in *.
  assert (Hf : 0 <= (read cb + size cb - write cb) mod size cb < size cb)
    by (apply Z.mod_pos_bound; lia).
  assert (Hwin : write cb + n <= 2 * size cb) by (destruct (empty cb); lia).
  assert (Hb : (empty cb || (n <=? (read cb + size cb - write cb) mod size cb)) = true).
  { destruct (empty cb); [reflexivity | simpl; apply Z.leb_le; lia]. }
  rewrite Hb.
  unfold memcpy_to_window, in_window. fold n.
  replace ((0 <=? write cb) && (0 <=? n) &&
           (write cb + n <=? 2 * Z.of_nat (List.length (backing cb)))) with true
    by (symmetry; unfold n in *; rewrite !andb_true_iff, !Z.leb_le; lia).
  unfold CircularBuffer_advanceWritePos. simpl.
  rewrite wrap_small by (unfold SIZE_T_MOD, n in *; lia).
  rewrite umod_pos by lia.
  destruct (n =? 0); reflexivity.
Qed.

(** [readChunk] on a non-empty active ring with non-null arguments: the
    full ring it returns. *)
Lemma readChunk_exact (cb : CircularBuffer_t) (length : Z) :
  active_ring cb = true -> empty cb = false -> 0 <= length ->
  CircularBuffer_readChunk false false cb length =
    ReadReturns
      (mkCB ((read cb + Z.min length ((write cb + size cb - read cb) mod size cb))
               mod size cb =? write cb)
            ((read cb + Z.min length ((write cb + size cb - read cb) mod size cb))
               mod size cb)
            (write cb) (fd cb) (buffer cb) (size cb) (backing cb))
      (map (fun i => virtual_byte (backing cb) (read cb + Z.of_nat i))
           (seq 0 (Z.to_nat (Z.min length ((write cb + size cb - read cb) mod size cb)))))
      (Z.min length ((write cb + size cb - read cb) mod size cb)).
Proof.
  intros H He Hl. pose proof H as Ha. active_facts Ha.
  unfold CircularBuffer_readChunk. simpl. rewrite He.
  rewrite (bytes_available_active cb H).
  set (avail := (write cb + size cb - read cb) mod size cb).
  assert (Hav : 0 <= avail < size cb) by (apply Z.mod_pos_bound; lia).
  set (k := Z.min length avail).
  assert (Hk : (if avail <? length then avail else length) = k).
  { unfold k. destruct (Z.ltb_spec avail length); lia. }
  rewrite Hk.
  assert (Hk' : 0 <= k <= avail) by (unfold k; lia).
  unfold memcpy_from_window, in_window.
  replace ((0 <=? read cb) && (0 <=? k) &&
           (read cb + k <=? 2 * Z.of_nat (List.length (backing cb)))) with true
    by (symmetry; rewrite !andb_true_iff, !Z.leb_le; lia).
  unfold CircularBuffer_advanceReadPos.
  rewrite wrap_small by (unfold SIZE_T_MOD; lia).
  rewrite umod_pos by lia.
  simpl. destruct ((read cb + k) mod size cb =? write cb);
    unfold set_empty, set_read; simpl; rewrite ?He; reflexivity.
Qed.

(** The three outcomes of [writeChunk] on an active ring. *)
Lemma writeChunk_cases (cb : CircularBuffer_t) (src : list byte) :
  active_ring cb = true ->
  (empty cb = true /\ 2 * size cb < write cb + Z.of_nat (List.length src) /\
   CircularBuffer_writeChunk cb src = WriteUB) \/
  (empty cb = false /\
   (read cb + size cb - write cb) mod size cb < Z.of_nat (List.length src) /\
   CircularBuffer_writeChunk cb src = WriteReturns cb 0) \/
  ((if empty cb then write cb + Z.of_nat (List.length src) <= 2 * size cb
    else Z.of_nat (List.length src) <= (read cb + size cb - write cb) mod size cb) /\
   CircularBuffer_writeChunk cb src =
    WriteReturns
      (mkCB (if Z.of_nat (List.length src) =? 0 then empty cb else false) (read cb)
            ((write cb + Z.of_nat (List.length src)) mod size cb) (fd cb) (buffer cb)
            (size cb) (store_bytes (backing cb) (write cb) src))
      (Z.of_nat (List.length src))).
Proof.
  intros H. pose proof H as Ha. active_facts Ha.
  set (n := Z.of_nat (List.length src)).
  destruct (empty cb) eqn:He.
  - destruct (Z_le_gt_dec (write cb + n) (2 * size cb)) as [Hle | Hgt].
    + right; right. split; [exact Hle | ].
      pose proof (writeChunk_exact cb src H) as E. rewrite He in E. apply E. exact Hle.
    + left. repeat split; [lia | ].
      unfold CircularBuffer_writeChunk. rewrite (free_bytes_active cb H), He.
      simpl orb. cbv zeta. fold n.
      unfold memcpy_to_window, in_window. fold n.
      replace ((0 <=? write cb) && (0 <=? n) &&
               (write cb + n <=? 2 * Z.of_nat (List.length (backing cb)))) with false
        by (symmetry; rewrite andb_false_iff; right; apply Z.leb_gt; lia).
      reflexivity.
  - destruct (Z_le_gt_dec n ((read cb + size cb - write cb) mod size cb)) as [Hle | Hgt].
    + right; right. split; [exact Hle | ].
      pose proof (writeChunk_exact cb src H) as E. rewrite He in E. apply E. exact Hle.
    + right; left. repeat split; [lia | ].
      unfold CircularBuffer_writeChunk. rewrite (free_bytes_active cb H), He.
      cbv zeta. fold n. simpl orb.
      replace (n <=? (read cb + size cb - write cb) mod size cb) with false
        by (symmetry; apply Z.leb_gt; lia).
      reflexivity.
Qed.

(** [init] when every system call succeeds except, possibly, the one of
    [memfd_create]: the ring and the resources it returns. *)
Lemma init_success_exact (p : Z) (e : env) (cb : CircularBuffer_t)
    (os : list resource) (sz a : Z) :
  0 < p <= INT_MAX -> 1 <= sz -> sz + p <= 2 ^ 63 -> env_memfd e <= INT_MAX ->
  env_ftruncate e = true -> env_reserve e = Some a -> 0 < a ->
  env_map1 e = true -> env_map2 e = true ->
  exists R, sz <= R < sz + p /\
    CircularBuffer_init p e (Some cb) os sz =
      (true,
       Some (mkCB (empty cb) 0 0 (if 0 <=? env_memfd e then env_memfd e else 0) a R
                  (repeat x00 (Z.to_nat R))),
       Mapping (a + R) R (Backed (if 0 <=? env_memfd e then env_memfd e else 0))
         :: Mapping a R (Backed (if 0 <=? env_memfd e then env_memfd e else 0))
         :: (if 0 <=? env_memfd e then OpenFd (env_memfd e) :: os else os)).
Proof.
  intros Hp Hsz Hb Hm Hft Hres Ha Hm1 Hm2.
  unfold CircularBuffer_init. cbv zeta.
  replace ((sz <? 1) || (LONG_MAX <? sz)) with false
    by (symmetry; apply orb_false_iff; split; apply Z.ltb_ge; unfold LONG_MAX; lia).
  destruct (round_up_pages p sz Hp ltac:(unfold LONG_MAX; lia)) as (Hr & _ & Hq).
  set (q := sz / p + (if 0 <? sz mod p then 1 else 0)) in *.
  rewrite Hr. exists (q * p). split; [lia | ].
  replace (wrap (2 * (q * p)) =? 0) with false
    by (symmetry; rewrite wrap_small by (unfold SIZE_T_MOD; lia); apply Z.eqb_neq; lia).
  rewrite Hft, Hres, Hm1, Hm2.
  unfold CircularBuffer_memfd_create, map_fixed_section1, map_fixed_section2.
  assert (Hne : (a =? a + q * p) = false) by (apply Z.eqb_neq; lia).
  destruct (Z.leb_spec 0 (env_memfd e)).
  - replace (env_memfd e <=? INT_MAX) with true by (symmetry; apply Z.leb_le; lia).
    replace (env_memfd e <? 0) with false by (symmetry; apply Z.ltb_ge; lia).
    simpl. repeat (rewrite ?Z.eqb_refl, ?Hne; simpl). reflexivity.
  - simpl. repeat (rewrite ?Z.eqb_refl, ?Hne; simpl). reflexivity.
Qed.

End RingLemmas.

(** * Properties of the ring operations *)

Module RingExtras.
Import CircularBuffer Scenarios RingProofs RingLemmas.

Ltac active_named H Hs Hr Hw Hl :=
  apply active_ring_spec in H; destruct H as (Hs & Hr & Hw & Hl).

(** On an empty active ring whose cursors agree, a chunk of [n] bytes with
    [0 < n < size] is written whole, and reading [n] bytes back returns the
    same chunk and leaves the ring empty with its cursors equal again. *)
Theorem write_read_roundtrip (cb : CircularBuffer_t) (src : list byte) :
  active_ring cb = true -> empty cb = true -> read cb = write cb ->
  0 < Z.of_nat (List.length src) < size cb ->
  exists cb1 cb2,
    CircularBuffer_writeChunk cb src = WriteReturns cb1 (Z.of_nat (List.length src)) /\
    CircularBuffer_readChunk false false cb1 (Z.of_nat (List.length src)) =
      ReadReturns cb2 src (Z.of_nat (List.length src)) /\
    empty cb2 = true /\ read cb2 = write cb2.
Proof.
  intros H He Hrw Hn. pose proof H as Ha. active_named Ha Hs Hr Hw Hl.
  pose proof (writeChunk_exact cb src H) as E. rewrite He in E.
  set (n := Z.of_nat (List.length src)) in *.
  rewrite E by lia.
  replace (n =? 0) with false by (symmetry; apply Z.eqb_neq; lia).
  set (cb1 := mkCB false (read cb) ((write cb + n) mod size cb) (fd cb) (buffer cb)
                   (size cb) (store_bytes (backing cb) (write cb) src)).
  assert (Hw1 : 0 <= (write cb + n) mod size cb < size cb)
    by (apply Z.mod_pos_bound; lia).
  assert (H1 : active_ring cb1 = true).
  { apply active_ring_spec. unfold cb1; simpl. rewrite length_store_bytes. lia. }
  assert (Hout : map (fun i => virtual_byte (backing cb1) (read cb1 + Z.of_nat i))
                     (seq 0 (Z.to_nat n)) = src).
  { unfold n. rewrite Nat2Z.id. apply map_seq_nth. intros j Hj. unfold cb1; simpl.
    rewrite virtual_byte_store by lia. cbv zeta. rewrite Hl, Hrw.
    replace (write cb + Z.of_nat j - write cb) with (Z.of_nat j) by lia.
    rewrite (Z.mod_small (Z.of_nat j)) by lia.
    destruct (Z.ltb_spec (Z.of_nat j) (Z.of_nat (List.length src))); [ | lia].
    rewrite Nat2Z.id. reflexivity. }
  assert (Hav : (write cb1 + size cb1 - read cb1) mod size cb1 = n).
  { unfold cb1; simpl. rewrite Hrw. rewrite (mod_reduce (write cb + n)) by lia.
    destruct (Z.ltb_spec (write cb + n) (size cb)); rewrite mod_reduce by lia;
      match goal with |- context [?x <? size cb] => destruct (Z.ltb_spec x (size cb)) end;
      lia. }
  exists cb1.
  rewrite (readChunk_exact cb1 n H1 eq_refl) by lia.
  rewrite Hav, Z.min_id, Hout.
  eexists. split; [reflexivity | ]. split; [reflexivity | ].
  unfold cb1; simpl. rewrite Hrw, Z.eqb_refl. split; reflexivity.
Qed.

Lemma write_read_roundtrip_witness :
  exists cb1 cb2,
    CircularBuffer_writeChunk ring_empty (repeat x01 10) =
      WriteReturns cb1 (Z.of_nat (List.length (repeat x01 10))) /\
    CircularBuffer_readChunk false false cb1 (Z.of_nat (List.length (repeat x01 10))) =
      ReadReturns cb2 (repeat x01 10) (Z.of_nat (List.length (repeat x01 10))) /\
    empty cb2 = true /\ read cb2 = write cb2.
Proof.
  apply (write_read_roundtrip ring_empty (repeat x01 10)); vm_compute; repeat split.
Defined.

(** First in, first out: on a non-empty active ring holding [a] unread
    bytes, with its cursors apart, a chunk of [n] bytes with [a + n < size]
    is written whole, and a read of [a + n] bytes then returns the [a]
    bytes that were unread before the write followed by the chunk, and
    leaves the ring empty. *)
Theorem write_then_read_fifo (cb : CircularBuffer_t) (src : list byte) :
  active_ring cb = true -> empty cb = false -> read cb <> write cb ->
  let a := (write cb + size cb - read cb) mod size cb in
  let n := Z.of_nat (List.length src) in
  a + n < size cb ->
  exists cb1 cb2,
    CircularBuffer_writeChunk cb src = WriteReturns cb1 n /\
    CircularBuffer_readChunk false false cb1 (a + n) =
      ReadReturns cb2
        (map (fun i => virtual_byte (backing cb) (read cb + Z.of_nat i))
             (seq 0 (Z.to_nat a)) ++ src) (a + n) /\
    empty cb2 = true /\ read cb2 = write cb2.
Proof.
  intros H He Hne a n Hfit. pose proof H as Ha. active_named Ha Hs Hr Hw Hl.
  assert (Hcase : (read cb < write cb /\ a = write cb - read cb) \/
                  (write cb < read cb /\ a = write cb + size cb - read cb)).
  { unfold a. rewrite mod_reduce by lia.
    destruct (Z.ltb_spec (write cb + size cb - read cb) (size cb)); lia. }
  assert (Hfree : (read cb + size cb - write cb) mod size cb = size cb - a).
  { rewrite mod_reduce by lia.
    destruct (Z.ltb_spec (read cb + size cb - write cb) (size cb)); lia. }
  pose proof (writeChunk_exact cb src H) as E. rewrite He, Hfree in E. fold n in E.
  rewrite E by lia.
  replace (if n =? 0 then false else false) with false by (destruct (n =? 0); reflexivity).
  set (cb1 := mkCB false (read cb) ((write cb + n) mod size cb) (fd cb) (buffer cb)
                   (size cb) (store_bytes (backing cb) (write cb) src)).
  assert (Hw1 : (write cb + n) mod size cb =
                if write cb + n <? size cb then write cb + n else write cb + n - size cb)
    by (apply mod_reduce; lia).
  assert (H1 : active_ring cb1 = true).
  { apply active_ring_spec. unfold cb1; simpl. rewrite length_store_bytes, Hw1.
    destruct (Z.ltb_spec (write cb + n) (size cb)); lia. }
  assert (Hav : (write cb1 + size cb1 - read cb1) mod size cb1 = a + n).
  { unfold cb1; simpl. rewrite Hw1. rewrite mod_reduce by
      (destruct (Z.ltb_spec (write cb + n) (size cb)); lia).
    destruct (Z.ltb_spec (write cb + n) (size cb));
      match goal with |- context [?x <? size cb] => destruct (Z.ltb_spec x (size cb)) end;
      lia. }
  assert (Hr2 : (read cb1 + (a + n)) mod size cb1 = write cb1).
  { unfold cb1; simpl. rewrite Hw1, mod_reduce by lia.
    destruct (Z.ltb_spec (write cb + n) (size cb));
      match goal with |- context [?x <? size cb] => destruct (Z.ltb_spec x (size cb)) end;
      lia. }
  assert (Hout : map (fun i => virtual_byte (backing cb1) (read cb1 + Z.of_nat i))
                     (seq 0 (Z.to_nat (a + n))) =
                 map (fun i => virtual_byte (backing cb) (read cb + Z.of_nat i))
                     (seq 0 (Z.to_nat a)) ++ src).
  { unfold cb1; simpl.
    rewrite Z2Nat.inj_add by lia.
    replace (Z.to_nat n) with (List.length src) by (unfold n; rewrite Nat2Z.id; reflexivity).
    rewrite seq_app, map_app. f_equal.
    - apply map_ext_in. intros i Hi. apply in_seq in Hi.
      rewrite virtual_byte_store by lia. cbv zeta. rewrite Hl.
      replace ((read cb + Z.of_nat i - write cb) mod size cb)
        with (size cb - a + Z.of_nat i).
      + destruct (Z.ltb_spec (size cb - a + Z.of_nat i) (Z.of_nat (List.length src)));
          [unfold n in *; lia | reflexivity].
      + destruct Hcase as [[Hlt Ea] | [Hlt Ea]].
        * apply (Z.mod_unique _ _ (-1)); [left; lia | lia].
        * apply (Z.mod_unique _ _ 0); [left; lia | lia].
    - simpl. apply map_seq_nth. intros j Hj.
      rewrite virtual_byte_store by lia. cbv zeta. rewrite Hl.
      replace ((read cb + Z.of_nat (Z.to_nat a + j) - write cb) mod size cb)
        with (Z.of_nat j).
      + destruct (Z.ltb_spec (Z.of_nat j) (Z.of_nat (List.length src))); [ | lia].
        rewrite Nat2Z.id. reflexivity.
      + rewrite Nat2Z.inj_add, Z2Nat.id by lia.
        destruct Hcase as [[Hlt Ea] | [Hlt Ea]].
        * apply (Z.mod_unique _ _ 0); [left; lia | lia].
        * apply (Z.mod_unique _ _ 1); [left; lia | lia]. }
  exists cb1.
  rewrite (readChunk_exact cb1 (a + n) H1 eq_refl) by lia.
  rewrite Hav, Z.min_id, Hout, Hr2, Z.eqb_refl.
  eexists. split; [reflexivity | ]. split; [reflexivity | ].
  simpl. split; reflexivity.
Qed.

Lemma write_then_read_fifo_witness :
  let a := (write ring_4000 + size ring_4000 - read ring_4000) mod size ring_4000 in
  let n := Z.of_nat (List.length (repeat x01 50)) in
  a + n < size ring_4000 /\
  exists cb1 cb2,
    CircularBuffer_writeChunk ring_4000 (repeat x01 50) = WriteReturns cb1 n /\
    CircularBuffer_readChunk false false cb1 (a + n) =
      ReadReturns cb2
        (map (fun i => virtual_byte (backing ring_4000) (read ring_4000 + Z.of_nat i))
             (seq 0 (Z.to_nat a)) ++ repeat x01 50) (a + n) /\
    empty cb2 = true /\ read cb2 = write cb2.
Proof.
  cbv zeta. split; [vm_compute; reflexivity | ].
  apply (write_then_read_fifo ring_4000 (repeat x01 50));
    [vm_compute; reflexivity | reflexivity | vm_compute; discriminate | vm_compute; reflexivity].
Defined.

(** On an active ring, [writeChunk] keeps the cursor invariant of the
    empty flag: when the flag is set, the read and write cursors are equal. *)
Theorem writeChunk_keeps_cursor_invariant (cb cb' : CircularBuffer_t) (src : list byte)
    (k : Z) :
  active_ring cb = true -> (empty cb = true -> read cb = write cb) ->
  CircularBuffer_writeChunk cb src = WriteReturns cb' k ->
  empty cb' = true -> read cb' = write cb'.
Proof.
  intros H Hinv Hwr He'. pose proof H as Ha. active_named Ha Hs Hr Hw Hl.
  destruct (writeChunk_cases cb src H) as [(He & Hgt & E) | [(He & Hlt & E) | (Hfit & E)]];
    rewrite E in Hwr; inversion Hwr; subst; clear Hwr.
  - congruence.
  - simpl in *.
    destruct (Z.eqb_spec (Z.of_nat (List.length src)) 0) as [Z0 | Z0]; [ | discriminate].
    rewrite Z0, Z.add_0_r, Z.mod_small by lia. apply Hinv. assumption.
Qed.

Lemma writeChunk_keeps_cursor_invariant_witness :
  empty ring_empty = true /\ read ring_empty = write ring_empty /\
  match CircularBuffer_writeChunk ring_empty [] with
  | WriteReturns cb' _ => empty cb' = true /\ read cb' = write cb'
  | WriteUB => False
  end.
Proof.
  split; [reflexivity | split; [reflexivity | ]].
  assert (Hw : active_ring ring_empty = true) by (vm_compute; reflexivity).
  destruct (CircularBuffer_writeChunk ring_empty []) as [ | cb' k] eqn:E.
  - vm_compute in E. discriminate.
  - assert (He' : empty cb' = true) by (vm_compute in E; inversion E; reflexivity).
    split; [exact He' | ].
    exact (writeChunk_keeps_cursor_invariant ring_empty cb' [] k Hw
             (fun _ => eq_refl) E He').
Defined.

(** On an active ring, [readChunk] keeps the cursor invariant of the empty
    flag: when the flag is set, the read and write cursors are equal. *)
Theorem readChunk_keeps_cursor_invariant (cb cb' : CircularBuffer_t) (b1 b2 : bool)
    (length : Z) (out : list byte) (k : Z) :
  active_ring cb = true -> 0 <= length -> (empty cb = true -> read cb = write cb) ->
  CircularBuffer_readChunk b1 b2 cb length = ReadReturns cb' out k ->
  empty cb' = true -> read cb' = write cb'.
Proof.
  intros H Hl Hinv Hrd He'.
  destruct (b1 || b2) eqn:Hb.
  - unfold CircularBuffer_readChunk in Hrd. rewrite Hb in Hrd.
    inversion Hrd; subst. auto.
  - destruct b1, b2; try discriminate Hb.
    destruct (empty cb) eqn:He.
    + unfold CircularBuffer_readChunk in Hrd. rewrite He in Hrd. discriminate.
    + rewrite readChunk_exact in Hrd by assumption.
      inversion Hrd; subst; clear Hrd. simpl in *. apply Z.eqb_eq. assumption.
Qed.

Lemma readChunk_keeps_cursor_invariant_witness :
  match CircularBuffer_writeChunk ring_empty (repeat x01 10) with
  | WriteReturns cb1 _ =>
      match CircularBuffer_readChunk false false cb1 10 with
      | ReadReturns cb2 _ _ => empty cb2 = true /\ read cb2 = write cb2
      | _ => False
      end
  | WriteUB => False
  end.
Proof.
  destruct (CircularBuffer_writeChunk ring_empty (repeat x01 10)) as [ | cb1 k1] eqn:E1;
    [vm_compute in E1; discriminate | ].
  assert (H1 : active_ring cb1 = true /\ empty cb1 = false /\ read cb1 <> write cb1)
    by (vm_compute in E1; inversion E1; subst; vm_compute; split; [reflexivity | ];
        split; [reflexivity | discriminate]).
  destruct H1 as (H1 & He1 & Hne1).
  destruct (CircularBuffer_readChunk false false cb1 10) as [ | | cb2 out k] eqn:E2;
    [vm_compute in E1; inversion E1; subst; vm_compute in E2; discriminate
    | vm_compute in E1; inversion E1; subst; vm_compute in E2; discriminate | ].
  assert (He2 : empty cb2 = true)
    by (vm_compute in E1; inversion E1; subst; vm_compute in E2; inversion E2; reflexivity).
  split; [exact He2 | ].
  exact (readChunk_keeps_cursor_invariant cb1 cb2 false false 10 out k H1
           ltac:(lia) (fun E => ltac:(rewrite He1 in E; discriminate)) E2 He2).
Defined.

(** [writeChunk] on an active ring never writes part of a chunk: it either
    returns 0 and gives the ring back unchanged, or writes the whole chunk
    (returning its length, moving only the write cursor, keeping the
    descriptor, the mapping and the capacity).  It is undefined only when
    the empty flag is set and the chunk runs past the [2 * size] window. *)
Theorem writeChunk_all_or_nothing (cb : CircularBuffer_t) (src : list byte) :
  active_ring cb = true ->
  (forall cb' k, CircularBuffer_writeChunk cb src = WriteReturns cb' k ->
     (k = 0 /\ cb' = cb) \/
     (k = Z.of_nat (List.length src) /\ read cb' = read cb /\
      write cb' = (write cb + k) mod size cb /\ fd cb' = fd cb /\
      buffer cb' = buffer cb /\ size cb' = size cb)) /\
  (CircularBuffer_writeChunk cb src = WriteUB ->
   empty cb = true /\ 2 * size cb < write cb + Z.of_nat (List.length src)).
Proof.
  intros H.
  destruct (writeChunk_cases cb src H) as [(He & Hgt & E) | [(He & Hlt & E) | (Hfit & E)]];
    rewrite E; split.
  - intros cb' k F. discriminate.
  - intros _. split; assumption.
  - intros cb' k F. inversion F; subst. left. split; reflexivity.
  - intros F. discriminate.
  - intros cb' k F. inversion F; subst. right. simpl. repeat split.
  - intros F. discriminate.
Qed.

Lemma writeChunk_all_or_nothing_witness :
  (forall cb' k, CircularBuffer_writeChunk ring_4000 (repeat x01 200) = WriteReturns cb' k ->
     (k = 0 /\ cb' = ring_4000) \/
     (k = Z.of_nat (List.length (repeat x01 200)) /\ read cb' = read ring_4000 /\
      write cb' = (write ring_4000 + k) mod size ring_4000 /\ fd cb' = fd ring_4000 /\
      buffer cb' = buffer ring_4000 /\ size cb' = size ring_4000)) /\
  (CircularBuffer_writeChunk ring_4000 (repeat x01 200) = WriteUB ->
   empty ring_4000 = true /\
   2 * size ring_4000 < write ring_4000 + Z.of_nat (List.length (repeat x01 200))).
Proof. apply writeChunk_all_or_nothing. vm_compute. reflexivity. Defined.

(** On a non-empty active ring with its cursors apart, holding [a] unread
    bytes, [readChunk] of [length] bytes returns [min(length, a)] bytes and
    sets the empty flag exactly when it takes all [a] of them; then the
    read cursor has reached the write cursor. *)
Theorem readChunk_empty_iff_drained (cb : CircularBuffer_t) (length : Z) :
  active_ring cb = true -> empty cb = false -> read cb <> write cb -> 0 <= length ->
  let a := (write cb + size cb - read cb) mod size cb in
  exists cb' out,
    CircularBuffer_readChunk false false cb length = ReadReturns cb' out (Z.min length a) /\
    (empty cb' = true <-> a <= length) /\ (a <= length -> read cb' = write cb').
Proof.
  intros H He Hne Hl a. pose proof H as Ha. active_named Ha Hs Hr Hw Hlen.
  assert (Hcase : (read cb < write cb /\ a = write cb - read cb) \/
                  (write cb < read cb /\ a = write cb + size cb - read cb)).
  { unfold a. rewrite mod_reduce by lia.
    destruct (Z.ltb_spec (write cb + size cb - read cb) (size cb)); lia. }
  assert (Hr' : ((read cb + Z.min length a) mod size cb =? write cb) = (a <=? length)).
  { rewrite mod_reduce by lia.
    destruct (Z.leb_spec a length);
      match goal with |- context [?x <? size cb] => destruct (Z.ltb_spec x (size cb)) end;
      [apply Z.eqb_eq | apply Z.eqb_eq | apply Z.eqb_neq | apply Z.eqb_neq]; lia. }
  rewrite readChunk_exact by assumption. fold a.
  do 2 eexists. split; [reflexivity | ]. simpl. rewrite Hr'.
  destruct (Z.leb_spec a length).
  - split; [split; intros; [assumption | reflexivity] | ].
    intros _. apply Z.eqb_eq. exact Hr'.
  - split; [split; intros; [discriminate | lia] | lia].
Qed.

Lemma readChunk_empty_iff_drained_witness :
  exists cb' out,
    CircularBuffer_readChunk false false ring_4000 100 =
      ReadReturns cb' out (Z.min 100 ((write ring_4000 + size ring_4000 - read ring_4000)
                                        mod size ring_4000)) /\
    (empty cb' = true <-> (write ring_4000 + size ring_4000 - read ring_4000)
                             mod size ring_4000 <= 100) /\
    ((write ring_4000 + size ring_4000 - read ring_4000) mod size ring_4000 <= 100 ->
     read cb' = write cb').
Proof.
  apply (readChunk_empty_iff_drained ring_4000 100);
    [vm_compute; reflexivity | reflexivity | vm_compute; discriminate | lia].
Defined.

(** [free] twice is [free] once: after the first call the ring's [buffer]
    is [NULL], so the second call releases nothing and changes nothing. *)
Theorem free_twice_is_free_once (cb : option CircularBuffer_t) (os : list resource) :
  CircularBuffer_free (fst (CircularBuffer_free cb os)) (snd (CircularBuffer_free cb os)) =
    CircularBuffer_free cb os.
Proof. destruct cb as [cb | ]; reflexivity. Qed.

(** When all the system calls of [init] succeed, [free] after a successful
    [init] gives the process back exactly the resources it held before
    [init]: both halves of the window are unmapped and the descriptor of
    the backing store is closed. *)
Theorem init_then_free_restores_resources (p : Z) (e : env) (cb : CircularBuffer_t)
    (os : list resource) (sz a : Z) :
  0 < p <= INT_MAX -> 1 <= sz -> sz + p <= 2 ^ 63 -> 0 <= env_memfd e <= INT_MAX ->
  env_ftruncate e = true -> env_reserve e = Some a -> 0 < a < 2 ^ 63 ->
  env_map1 e = true -> env_map2 e = true ->
  exists cb' os',
    CircularBuffer_init p e (Some cb) os sz = (true, Some cb', os') /\
    snd (CircularBuffer_free (Some cb') os') = os.
Proof.
  intros Hp Hsz Hb Hm Hft Hres Ha Hm1 Hm2.
  destruct (init_success_exact p e cb os sz a Hp Hsz Hb ltac:(lia) Hft Hres ltac:(lia)
              Hm1 Hm2) as (R & HR & E).
  rewrite E. do 2 eexists. split; [reflexivity | ].
  replace (0 <=? env_memfd e) with true by (symmetry; apply Z.leb_le; lia).
  unfold CircularBuffer_free. simpl buffer. simpl size. simpl fd.
  replace (negb (a =? NULL)) with true by (symmetry; apply negb_true_iff, Z.eqb_neq;
                                            unfold NULL; lia).
  rewrite wrap_small by (unfold SIZE_T_MOD; lia).
  rewrite munmap_head. cbn [snd]. rewrite munmap_head. cbn [snd].
  simpl. rewrite Z.eqb_refl. reflexivity.
Qed.

Lemma init_then_free_restores_resources_witness :
  exists cb' os',
    CircularBuffer_init 4096 host_ok (Some CircularBuffer_create) [OpenFd 0] 5000 =
      (true, Some cb', os') /\
    snd (CircularBuffer_free (Some cb') os') = [OpenFd 0].
Proof.
  apply (init_then_free_restores_resources 4096 host_ok CircularBuffer_create [OpenFd 0]
           5000 1048576); unfold INT_MAX, host_ok; simpl; try reflexivity; lia.
Defined.

(** [init] does not detect a failure of the [memfd_create] system call: the
    wrapper returns 0 (its initial value), which passes the check [< 0].
    When the later calls succeed, [init] returns true with descriptor 0 in
    the ring, and [free] then closes descriptor 0, which the ring never
    opened. *)
Theorem init_misses_memfd_failure (p : Z) (e : env) (cb : CircularBuffer_t)
    (os : list resource) (sz a : Z) :
  0 < p <= INT_MAX -> 1 <= sz -> sz + p <= 2 ^ 63 -> env_memfd e < 0 ->
  env_ftruncate e = true -> env_reserve e = Some a -> 0 < a < 2 ^ 63 ->
  env_map1 e = true -> env_map2 e = true ->
  exists cb' os',
    CircularBuffer_init p e (Some cb) os sz = (true, Some cb', os') /\
    fd cb' = 0 /\
    snd (CircularBuffer_free (Some cb') os') = snd (close 0 os).
Proof.
  intros Hp Hsz Hb Hm Hft Hres Ha Hm1 Hm2.
  destruct (init_success_exact p e cb os sz a Hp Hsz Hb ltac:(unfold INT_MAX; lia) Hft Hres
              ltac:(lia) Hm1 Hm2) as (R & HR & E).
  rewrite E. do 2 eexists. split; [reflexivity | ].
  replace (0 <=? env_memfd e) with false by (symmetry; apply Z.leb_gt; lia).
  split; [reflexivity | ].
  unfold CircularBuffer_free. simpl buffer. simpl size. simpl fd.
  replace (negb (a =? NULL)) with true by (symmetry; apply negb_true_iff, Z.eqb_neq;
                                            unfold NULL; lia).
  rewrite wrap_small by (unfold SIZE_T_MOD; lia).
  rewrite munmap_head. cbn [snd]. rewrite munmap_head. reflexivity.
Qed.

Lemma init_misses_memfd_failure_witness :
  exists cb' os',
    CircularBuffer_init 4096 (mkEnv (-1) true (Some 1048576) true true)
      (Some CircularBuffer_create) [OpenFd 0] 4096 = (true, Some cb', os') /\
    fd cb' = 0 /\
    snd (CircularBuffer_free (Some cb') os') = snd (close 0 [OpenFd 0]).
Proof.
  apply (init_misses_memfd_failure 4096 (mkEnv (-1) true (Some 1048576) true true)
           CircularBuffer_create [OpenFd 0] 4096 1048576); unfold INT_MAX;
    try reflexivity; simpl; lia.
Defined.

(** [readChunk] on an active ring never changes what the writer owns: the
    bytes of the ring, the write cursor, the descriptor, the mapping and
    the capacity are those it was given. *)
Theorem readChunk_preserves_contents (cb cb' : CircularBuffer_t) (b1 b2 : bool)
    (length : Z) (out : list byte) (k : Z) :
  active_ring cb = true -> 0 <= length ->
  CircularBuffer_readChunk b1 b2 cb length = ReadReturns cb' out k ->
  backing cb' = backing cb /\ write cb' = write cb /\ fd cb' = fd cb /\
  buffer cb' = buffer cb /\ size cb' = size cb.
Proof.
  intros H Hl Hrd.
  destruct (b1 || b2) eqn:Hb.
  - unfold CircularBuffer_readChunk in Hrd. rewrite Hb in Hrd.
    inversion Hrd; subst. repeat split.
  - destruct b1, b2; try discriminate Hb.
    destruct (empty cb) eqn:He.
    + unfold CircularBuffer_readChunk in Hrd. rewrite He in Hrd. discriminate.
    + rewrite readChunk_exact in Hrd by assumption.
      inversion Hrd; subst. repeat split.
Qed.

Lemma readChunk_preserves_contents_witness :
  match CircularBuffer_readChunk false false ring_4000 100 with
  | ReadReturns cb' _ _ =>
      backing cb' = backing ring_4000 /\ write cb' = write ring_4000 /\
      fd cb' = fd ring_4000 /\ buffer cb' = buffer ring_4000 /\ size cb' = size ring_4000
  | _ => False
  end.
Proof.
  destruct (CircularBuffer_readChunk false false ring_4000 100) as [ | | cb' out k] eqn:E;
    [vm_compute in E; discriminate | vm_compute in E; discriminate | ].
  exact (readChunk_preserves_contents ring_4000 cb' false false 100 out k
           ltac:(vm_compute; reflexivity) ltac:(lia) E).
Defined.

End RingExtras.

(** * Properties of the comparison helpers of src/main.c *)

Module TestDriverProofs.
Import CircularBuffer RingProofs TestDriver.

Lemma checkEqual_from_spec (a b : list byte) (i todo : nat) :
  (i + todo <= List.length a)%nat -> (i + todo <= List.length b)%nat ->
  checkEqual_from a b i todo =
    Some (forallb (fun j => Byte.eqb (nth j a x00) (nth j b x00)) (seq i todo)).
Proof.
  revert i. induction todo as [ | todo IH]; intros i Ha Hb; simpl; [reflexivity | ].
  rewrite (nth_error_nth' a (n := i) x00) by lia. rewrite (nth_error_nth' b (n := i) x00) by lia.
  destruct (Byte.eqb _ _); simpl; [apply IH; lia | reflexivity].
Qed.

Lemma compareBuff_from_spec (a b : list byte) (i todo : nat) (c : Z) :
  (i + todo <= List.length a)%nat -> (i + todo <= List.length b)%nat ->
  0 <= c -> c + Z.of_nat todo < SIZE_T_MOD ->
  exists out,
    compareBuff_from a b i todo c =
      Some (out, c + Z.of_nat (List.length
                   (filter (fun j => negb (Byte.eqb (nth j a x00) (nth j b x00)))
                           (seq i todo)))).
Proof.
  revert i c. induction todo as [ | todo IH]; intros i c Ha Hb Hc Hm; simpl.
  - exists []. rewrite Z.add_0_r. reflexivity.
  - rewrite (nth_error_nth' a (n := i) x00) by lia. rewrite (nth_error_nth' b (n := i) x00) by lia.
    destruct (Byte.eqb (nth i a x00) (nth i b x00)); simpl.
    + destruct (IH (S i) c ltac:(lia) ltac:(lia) Hc ltac:(lia)) as [out E].
      rewrite E. eexists. reflexivity.
    + rewrite wrap_small by lia.
      destruct (IH (S i) (c + 1) ltac:(lia) ltac:(lia) ltac:(lia) ltac:(lia)) as [out E].
      rewrite E. eexists. rewrite ?Zpos_P_of_succ_nat, ?Nat2Z.inj_succ.
      f_equal. f_equal. lia.
Qed.

Lemma filter_negb_nil {A : Type} (f : A -> bool) (l : list A) :
  List.length (filter (fun x => negb (f x)) l) = 0%nat <-> forallb f l = true.
Proof.
  induction l as [ | x l IH]; simpl; [tauto | ].
  destruct (f x); simpl; [exact IH | split; [discriminate | discriminate]].
Qed.

(** [checkEqual] on two buffers holding at least [length] bytes each
    returns true exactly when their first [length] bytes are the same. *)
Theorem checkEqual_firstn (a b : list byte) (length : Z) :
  0 <= length -> length <= Z.of_nat (List.length a) -> length <= Z.of_nat (List.length b) ->
  exists r, checkEqual a b length = Some r /\
    (r = true <-> firstn (Z.to_nat length) a = firstn (Z.to_nat length) b).
Proof.
  intros H0 Ha Hb. unfold checkEqual. rewrite checkEqual_from_spec by lia.
  eexists. split; [reflexivity | ]. rewrite forallb_forall. split.
  - intros Hall. apply nth_ext with (d := x00) (d' := x00).
    + rewrite !length_firstn. lia.
    + intros j Hj. rewrite length_firstn in Hj. rewrite !nth_firstn.
      destruct (Nat.ltb_spec j (Z.to_nat length)); [ | reflexivity].
      apply Byte.byte_dec_bl. apply Hall. apply in_seq. lia.
  - intros Heq j Hj. apply in_seq in Hj. apply Byte.byte_dec_lb.
    pose proof (f_equal (fun l => nth j l x00) Heq) as E. simpl in E.
    rewrite !nth_firstn in E.
    destruct (Nat.ltb_spec j (Z.to_nat length)); [exact E | lia].
Qed.

Lemma checkEqual_firstn_witness :
  exists r, checkEqual [x01; x02; x03] [x01; x02; x04] 2 = Some r /\
    (r = true <-> firstn (Z.to_nat 2) [x01; x02; x03] = firstn (Z.to_nat 2) [x01; x02; x04]).
Proof. apply checkEqual_firstn; simpl; lia. Defined.

(** [compareBuff] on two buffers holding at least [length] bytes each
    returns the number of positions below [length] where they differ; that
    count is 0 exactly when [checkEqual] reports the buffers equal. *)
Theorem compareBuff_counts_mismatches (a b : list byte) (length : Z) :
  0 <= length -> length <= Z.of_nat (List.length a) -> length <= Z.of_nat (List.length b) ->
  length < SIZE_T_MOD ->
  exists out diff_count,
    compareBuff a b length = Some (out, diff_count) /\
    diff_count = Z.of_nat (List.length
                   (filter (fun j => negb (Byte.eqb (nth j a x00) (nth j b x00)))
                           (seq 0 (Z.to_nat length)))) /\
    (diff_count = 0 <-> checkEqual a b length = Some true).
Proof.
  intros H0 Ha Hb Hm. unfold compareBuff.
  destruct (compareBuff_from_spec a b 0 (Z.to_nat length) 0 ltac:(lia) ltac:(lia)
              ltac:(lia) ltac:(lia)) as [out E].
  rewrite E. do 2 eexists. split; [reflexivity | ]. split; [lia | ].
  unfold checkEqual. rewrite checkEqual_from_spec by lia.
  split.
  - intros Hz. f_equal. apply filter_negb_nil. lia.
  - intros Hs. inversion Hs as [Hs']. apply filter_negb_nil in Hs'.
    rewrite Hs'. reflexivity.
Qed.

Lemma compareBuff_counts_mismatches_witness :
  exists out diff_count,
    compareBuff [x01; x02; x03] [x01; x05; x04] 3 = Some (out, diff_count) /\
    diff_count = Z.of_nat (List.length
                   (filter (fun j => negb (Byte.eqb (nth j [x01; x02; x03] x00)
                                                    (nth j [x01; x05; x04] x00)))
                           (seq 0 (Z.to_nat 3)))) /\
    (diff_count = 0 <-> checkEqual [x01; x02; x03] [x01; x05; x04] 3 = Some true).
Proof. apply compareBuff_counts_mismatches; unfold SIZE_T_MOD; simpl; lia. Defined.

End TestDriverProofs.
